(** * Cipher Aegis: the flow aggregation engine

    A shallow embedding of [src/core/models.py] and [src/core/features.py].

    Conventions of the embedding:
    - Python [int] is [Z]; Python [float] (timestamps, inter-arrival times,
      statistics) is the exact rational type [Q], so every timestamp is a
      finite number and float arithmetic is read as exact arithmetic;
    - the instance dictionary [self._flows] is an insertion-ordered
      association list with unique keys, because the order of [items()] and
      [values()] decides the order of the returned feature lists;
    - [del d[k]] on an absent key raises [KeyError]; fallible code returns
      a [result];
    - the mutual-exclusion lock serialises the methods, so each method is
      one atomic state transformer on the [FeatureExtractor] record;
    - [time.time()] is an input of the method that reads it. *)

From Stdlib Require Import List String ZArith QArith Lia Lqa Bool.
Import ListNotations.

Local Open Scope Z_scope.

(** ** Exceptions *)

Inductive exn : Type :=
| KeyError
| StatisticsError.

Inductive result (A : Type) : Type :=
| Ok (a : A)
| Raise (e : exn).

Arguments Ok {A} a.
Arguments Raise {A} e.

Definition bind {A B : Type} (r : result A) (k : A -> result B) : result B :=
  match r with
  | Ok a => k a
  | Raise e => Raise e
  end.

Notation "x <- r ;; k" := (bind r (fun x => k))
  (at level 61, r at next level, right associativity).
Notation "' pat <- r ;; k" := (bind r (fun x => match x with pat => k end))
  (at level 61, pat pattern, r at next level, right associativity).

(** ** models.py *)

Inductive Protocol : Type :=
| TCP
| UDP
| ICMP
| OTHER.

Definition Protocol_eqb (a b : Protocol) : bool :=
  match a, b with
  | TCP, TCP | UDP, UDP | ICMP, ICMP | OTHER, OTHER => true
  | _, _ => false
  end.

Module FlowKey.

Record t : Type := mk {
  src_ip : string;
  dst_ip : string;
  src_port : Z;
  dst_port : Z;
  protocol : Protocol
}.

(** [FlowKey.reverse] *)
Definition reverse (self : t) : t :=
  {| src_ip := dst_ip self;
     dst_ip := src_ip self;
     src_port := dst_port self;
     dst_port := src_port self;
     protocol := protocol self |}.

(** Equality of the frozen dataclass: field by field. *)
Definition eqb (a b : t) : bool :=
  String.eqb (src_ip a) (src_ip b)
  && String.eqb (dst_ip a) (dst_ip b)
  && Z.eqb (src_port a) (src_port b)
  && Z.eqb (dst_port a) (dst_port b)
  && Protocol_eqb (protocol a) (protocol b).

End FlowKey.

Module PacketInfo.

Record t : Type := mk {
  timestamp : Q;
  src_ip : string;
  dst_ip : string;
  src_port : Z;
  dst_port : Z;
  protocol : Protocol;
  length : Z;
  flags : option string;
  payload_size : Z
}.

End PacketInfo.

(** Python's [max(a, b)]: the first argument unless the second is strictly
    greater. *)
Definition py_max (a b : Q) : Q :=
  if Qle_bool b a then a else b.

(** Python's [sum] over a list of floats: left to right from [0]. *)
Definition py_sum (xs : list Q) : Q :=
  fold_left Qplus xs 0%Q.

Module FlowStats.

Record t : Type := mk {
  flow_key : FlowKey.t;
  first_timestamp : Q;
  last_timestamp : Q;
  fwd_packet_count : Z;
  bwd_packet_count : Z;
  fwd_packet_lengths : list Z;
  bwd_packet_lengths : list Z;
  fwd_iat : list Q;
  bwd_iat : list Q;
  tcp_flags : list string
}.

(** The dataclass constructor with its defaults. *)
Definition new (k : FlowKey.t) (first last : Q) : t :=
  {| flow_key := k;
     first_timestamp := first;
     last_timestamp := last;
     fwd_packet_count := 0;
     bwd_packet_count := 0;
     fwd_packet_lengths := [];
     bwd_packet_lengths := [];
     fwd_iat := [];
     bwd_iat := [];
     tcp_flags := [] |}.

Definition duration (self : t) : Q :=
  py_max (last_timestamp self - first_timestamp self)%Q 0%Q.

Definition total_packets (self : t) : Z :=
  fwd_packet_count self + bwd_packet_count self.

End FlowStats.

Module FlowFeatures.

Record t : Type := mk {
  flow_key : FlowKey.t;
  flow_duration : Q;
  total_fwd_packets : Z;
  total_bwd_packets : Z;
  total_packets : Z;
  fwd_packet_length_mean : Q;
  fwd_packet_length_std : Q;
  bwd_packet_length_mean : Q;
  bwd_packet_length_std : Q;
  packet_length_mean : Q;
  packet_length_std : Q;
  fwd_iat_mean : Q;
  fwd_iat_std : Q;
  bwd_iat_mean : Q;
  bwd_iat_std : Q;
  iat_mean : Q;
  iat_std : Q;
  timestamp : Q;
  protocol : Protocol
}.


End FlowFeatures.

(** ** The instance dictionary [dict[FlowKey, FlowStats]] *)

Module Dict.

Definition t : Type := list (FlowKey.t * FlowStats.t).

Definition keys (d : t) : list FlowKey.t := map fst d.
Definition values (d : t) : list FlowStats.t := map snd d.

(** [d[k]], [None] when [k not in d]. *)
Fixpoint get (k : FlowKey.t) (d : t) : option FlowStats.t :=
  match d with
  | [] => None
  | (k', v) :: d' => if FlowKey.eqb k k' then Some v else get k d'
  end.

(** [k in d] *)
Definition contains (k : FlowKey.t) (d : t) : bool :=
  match get k d with
  | Some _ => true
  | None => false
  end.

(** [d[k] = v]: an existing key keeps its position, a new key goes last. *)
Fixpoint set (k : FlowKey.t) (v : FlowStats.t) (d : t) : t :=
  match d with
  | [] => [(k, v)]
  | (k', v') :: d' =>
      if FlowKey.eqb k k' then (k', v) :: d' else (k', v') :: set k v d'
  end.

(** [del d[k]]: raises [KeyError] when [k not in d]. *)
Fixpoint del (k : FlowKey.t) (d : t) : result t :=
  match d with
  | [] => Raise KeyError
  | (k', v') :: d' =>
      if FlowKey.eqb k k' then Ok d'
      else d'' <- del k d' ;; Ok ((k', v') :: d'')
  end.

(** The representation invariant of a dictionary: no key twice. *)
Definition ok (d : t) : Prop := NoDup (keys d).

End Dict.

(** Field assignments on the mutable dataclass [FlowStats]. *)
Module FlowStatsSet.
Import FlowStats.

Definition last_timestamp (v : Q) (s : t) : t :=
  mk (flow_key s) (first_timestamp s) v (fwd_packet_count s)
     (bwd_packet_count s) (fwd_packet_lengths s) (bwd_packet_lengths s)
     (fwd_iat s) (bwd_iat s) (tcp_flags s).

Definition fwd_packet_count (v : Z) (s : t) : t :=
  mk (flow_key s) (first_timestamp s) (FlowStats.last_timestamp s) v
     (bwd_packet_count s) (fwd_packet_lengths s) (bwd_packet_lengths s)
     (fwd_iat s) (bwd_iat s) (tcp_flags s).

Definition bwd_packet_count (v : Z) (s : t) : t :=
  mk (flow_key s) (first_timestamp s) (FlowStats.last_timestamp s)
     (FlowStats.fwd_packet_count s) v (fwd_packet_lengths s)
     (bwd_packet_lengths s) (fwd_iat s) (bwd_iat s) (tcp_flags s).

Definition fwd_packet_lengths (v : list Z) (s : t) : t :=
  mk (flow_key s) (first_timestamp s) (FlowStats.last_timestamp s)
     (FlowStats.fwd_packet_count s) (FlowStats.bwd_packet_count s) v
     (bwd_packet_lengths s) (fwd_iat s) (bwd_iat s) (tcp_flags s).

Definition bwd_packet_lengths (v : list Z) (s : t) : t :=
  mk (flow_key s) (first_timestamp s) (FlowStats.last_timestamp s)
     (FlowStats.fwd_packet_count s) (FlowStats.bwd_packet_count s)
     (FlowStats.fwd_packet_lengths s) v (fwd_iat s) (bwd_iat s)
     (tcp_flags s).

Definition fwd_iat (v : list Q) (s : t) : t :=
  mk (flow_key s) (first_timestamp s) (FlowStats.last_timestamp s)
     (FlowStats.fwd_packet_count s) (FlowStats.bwd_packet_count s)
     (FlowStats.fwd_packet_lengths s) (FlowStats.bwd_packet_lengths s) v
     (bwd_iat s) (tcp_flags s).

Definition bwd_iat (v : list Q) (s : t) : t :=
  mk (flow_key s) (first_timestamp s) (FlowStats.last_timestamp s)
     (FlowStats.fwd_packet_count s) (FlowStats.bwd_packet_count s)
     (FlowStats.fwd_packet_lengths s) (FlowStats.bwd_packet_lengths s)
     (FlowStats.fwd_iat s) v (tcp_flags s).

Definition tcp_flags (v : list string) (s : t) : t :=
  mk (flow_key s) (first_timestamp s) (FlowStats.last_timestamp s)
     (FlowStats.fwd_packet_count s) (FlowStats.bwd_packet_count s)
     (FlowStats.fwd_packet_lengths s) (FlowStats.bwd_packet_lengths s)
     (FlowStats.fwd_iat s) (FlowStats.bwd_iat s) v.

End FlowStatsSet.

(** ** features.py: the state of a [FeatureExtractor] *)

Record FeatureExtractor : Type := mkExtractor {
  flow_timeout : Q;
  cleanup_interval : Q;
  _flows : Dict.t;
  _last_cleanup : Q;
  _total_flows_created : Z;
  _total_flows_completed : Z
}.

(** [FeatureExtractor.__init__]; [now] is the reading of [time.time()]. *)
Definition __init__ (flow_timeout cleanup_interval now : Q) : FeatureExtractor :=
  {| flow_timeout := flow_timeout;
     cleanup_interval := cleanup_interval;
     _flows := [];
     _last_cleanup := now;
     _total_flows_created := 0;
     _total_flows_completed := 0 |}.

Definition set_flows (d : Dict.t) (self : FeatureExtractor) : FeatureExtractor :=
  mkExtractor (flow_timeout self) (cleanup_interval self) d
    (_last_cleanup self) (_total_flows_created self)
    (_total_flows_completed self).

Definition set_last_cleanup (v : Q) (self : FeatureExtractor) : FeatureExtractor :=
  mkExtractor (flow_timeout self) (cleanup_interval self) (_flows self) v
    (_total_flows_created self) (_total_flows_completed self).

Definition set_total_flows_created (v : Z) (self : FeatureExtractor)
  : FeatureExtractor :=
  mkExtractor (flow_timeout self) (cleanup_interval self) (_flows self)
    (_last_cleanup self) v (_total_flows_completed self).

Definition set_total_flows_completed (v : Z) (self : FeatureExtractor)
  : FeatureExtractor :=
  mkExtractor (flow_timeout self) (cleanup_interval self) (_flows self)
    (_last_cleanup self) (_total_flows_created self) v.

(** [_create_flow_key] *)
Definition _create_flow_key (packet : PacketInfo.t) : FlowKey.t :=
  {| FlowKey.src_ip := PacketInfo.src_ip packet;
     FlowKey.dst_ip := PacketInfo.dst_ip packet;
     FlowKey.src_port := PacketInfo.src_port packet;
     FlowKey.dst_port := PacketInfo.dst_port packet;
     FlowKey.protocol := PacketInfo.protocol packet |}.

(** Truth value of a Python list and of an optional string. *)
Definition truthy {A : Type} (xs : list A) : bool :=
  match xs with
  | [] => false
  | _ :: _ => true
  end.

Definition truthy_flags (f : option string) : bool :=
  match f with
  | None => false
  | Some EmptyString => false
  | Some (String _ _) => true
  end.

(** The inter-arrival sample of [_update_flow_stats]: the time since
    [first_timestamp] plus the samples already taken in that direction. *)
Definition next_iat (first_timestamp : Q) (iats : list Q) (timestamp : Q) : Q :=
  let iat :=
    if truthy iats
    then (timestamp - (first_timestamp + py_sum iats))%Q
    else (timestamp - first_timestamp)%Q in
  py_max iat 0%Q.

(** [_update_flow_stats]; the mutated object is returned. *)
Definition _update_flow_stats (flow_stats : FlowStats.t) (packet : PacketInfo.t)
    (is_forward : bool) : FlowStats.t :=
  let s := FlowStatsSet.last_timestamp (PacketInfo.timestamp packet) flow_stats in
  let s :=
    if is_forward then
      let s := FlowStatsSet.fwd_packet_count (FlowStats.fwd_packet_count s + 1) s in
      let s := FlowStatsSet.fwd_packet_lengths
                 (FlowStats.fwd_packet_lengths s ++ [PacketInfo.length packet]) s in
      if (1 <? Z.of_nat (List.length (FlowStats.fwd_packet_lengths s)))%Z then
        FlowStatsSet.fwd_iat
          (FlowStats.fwd_iat s
             ++ [next_iat (FlowStats.first_timestamp s) (FlowStats.fwd_iat s)
                   (PacketInfo.timestamp packet)]) s
      else s
    else
      let s := FlowStatsSet.bwd_packet_count (FlowStats.bwd_packet_count s + 1) s in
      let s := FlowStatsSet.bwd_packet_lengths
                 (FlowStats.bwd_packet_lengths s ++ [PacketInfo.length packet]) s in
      if (1 <? Z.of_nat (List.length (FlowStats.bwd_packet_lengths s)))%Z then
        FlowStatsSet.bwd_iat
          (FlowStats.bwd_iat s
             ++ [next_iat (FlowStats.first_timestamp s) (FlowStats.bwd_iat s)
                   (PacketInfo.timestamp packet)]) s
      else s in
  if truthy_flags (PacketInfo.flags packet) then
    match PacketInfo.flags packet with
    | Some f => FlowStatsSet.tcp_flags (FlowStats.tcp_flags s ++ [f]) s
    | None => s
    end
  else s.

(** [_is_flow_complete] *)
Definition _is_flow_complete (self : FeatureExtractor) (flow_stats : FlowStats.t)
    (current_time : Q) : bool :=
  let time_since_last_packet :=
    (current_time - FlowStats.last_timestamp flow_stats)%Q in
  Qle_bool (flow_timeout self) time_since_last_packet.

Section Extractor.

(** The float square root of the host's math library, which
    [statistics.stdev] applies to the sample variance. *)
Variable fsqrt : Q -> Q.

(** *** Python's [statistics] module, as its documentation defines it *)

(** [statistics.mean]: the arithmetic mean; [StatisticsError] on no data. *)
Definition statistics_mean (data : list Q) : result Q :=
  match data with
  | [] => Raise StatisticsError
  | _ :: _ => Ok (py_sum data / inject_Z (Z.of_nat (List.length data)))%Q
  end.

(** [statistics.variance]: the sample variance, the squared deviations from
    the mean over [n - 1]; [StatisticsError] on fewer than two points. *)
Definition statistics_variance (data : list Q) : result Q :=
  if (Z.of_nat (List.length data) <? 2)%Z then Raise StatisticsError
  else
    m <- statistics_mean data ;;
    Ok (py_sum (map (fun x => (x - m) * (x - m))%Q data)
        / inject_Z (Z.of_nat (List.length data) - 1))%Q.

(** [statistics.stdev]: the square root of the sample variance. *)
Definition statistics_stdev (data : list Q) : result Q :=
  v <- statistics_variance data ;;
  Ok (fsqrt v).

(** *** Feature derivation *)

(** [_safe_mean] *)
Definition _safe_mean (values : list Q) : result Q :=
  if truthy values then statistics_mean values else Ok 0%Q.

(** [_safe_std] *)
Definition _safe_std (values : list Q) : result Q :=
  if (1 <? Z.of_nat (List.length values))%Z then statistics_stdev values
  else Ok 0%Q.

(** A list of [int] where floats are expected. *)
Definition floats (xs : list Z) : list Q := map inject_Z xs.

(** [_extract_features] *)
Definition _extract_features (flow_stats : FlowStats.t)
  : result FlowFeatures.t :=
  let all_lengths :=
    FlowStats.fwd_packet_lengths flow_stats
      ++ FlowStats.bwd_packet_lengths flow_stats in
  let all_iats :=
    FlowStats.fwd_iat flow_stats ++ FlowStats.bwd_iat flow_stats in
  fl_mean <- _safe_mean (floats (FlowStats.fwd_packet_lengths flow_stats)) ;;
  fl_std <- _safe_std (floats (FlowStats.fwd_packet_lengths flow_stats)) ;;
  bl_mean <- _safe_mean (floats (FlowStats.bwd_packet_lengths flow_stats)) ;;
  bl_std <- _safe_std (floats (FlowStats.bwd_packet_lengths flow_stats)) ;;
  l_mean <- _safe_mean (floats all_lengths) ;;
  l_std <- _safe_std (floats all_lengths) ;;
  fi_mean <- _safe_mean (FlowStats.fwd_iat flow_stats) ;;
  fi_std <- _safe_std (FlowStats.fwd_iat flow_stats) ;;
  bi_mean <- _safe_mean (FlowStats.bwd_iat flow_stats) ;;
  bi_std <- _safe_std (FlowStats.bwd_iat flow_stats) ;;
  i_mean <- _safe_mean all_iats ;;
  i_std <- _safe_std all_iats ;;
  Ok {| FlowFeatures.flow_key := FlowStats.flow_key flow_stats;
        FlowFeatures.flow_duration := FlowStats.duration flow_stats;
        FlowFeatures.total_fwd_packets := FlowStats.fwd_packet_count flow_stats;
        FlowFeatures.total_bwd_packets := FlowStats.bwd_packet_count flow_stats;
        FlowFeatures.total_packets := FlowStats.total_packets flow_stats;
        FlowFeatures.fwd_packet_length_mean := fl_mean;
        FlowFeatures.fwd_packet_length_std := fl_std;
        FlowFeatures.bwd_packet_length_mean := bl_mean;
        FlowFeatures.bwd_packet_length_std := bl_std;
        FlowFeatures.packet_length_mean := l_mean;
        FlowFeatures.packet_length_std := l_std;
        FlowFeatures.fwd_iat_mean := fi_mean;
        FlowFeatures.fwd_iat_std := fi_std;
        FlowFeatures.bwd_iat_mean := bi_mean;
        FlowFeatures.bwd_iat_std := bi_std;
        FlowFeatures.iat_mean := i_mean;
        FlowFeatures.iat_std := i_std;
        FlowFeatures.timestamp := FlowStats.first_timestamp flow_stats;
        FlowFeatures.protocol :=
          FlowKey.protocol (FlowStats.flow_key flow_stats) |}.

(** *** Sweep and drain *)

(** First loop of [_cleanup_stale_flows]: one pass over [items()] that
    only reads the table and collects the stale keys and their features. *)
Fixpoint scan_stale (self : FeatureExtractor) (current_time : Q)
    (items : list (FlowKey.t * FlowStats.t))
    (completed_features : list FlowFeatures.t)
    (flows_to_remove : list FlowKey.t)
  : result (list FlowFeatures.t * list FlowKey.t) :=
  match items with
  | [] => Ok (completed_features, flows_to_remove)
  | (flow_key, flow_stats) :: rest =>
      if _is_flow_complete self flow_stats current_time then
        f <- _extract_features flow_stats ;;
        scan_stale self current_time rest
          (completed_features ++ [f]) (flows_to_remove ++ [flow_key])
      else
        scan_stale self current_time rest completed_features flows_to_remove
  end.

(** Second loop of [_cleanup_stale_flows]: delete each collected key. *)
Fixpoint remove_flows (self : FeatureExtractor)
    (flows_to_remove : list FlowKey.t) : result FeatureExtractor :=
  match flows_to_remove with
  | [] => Ok self
  | flow_key :: rest =>
      d <- Dict.del flow_key (_flows self) ;;
      let self := set_flows d self in
      let self :=
        set_total_flows_completed (_total_flows_completed self + 1) self in
      remove_flows self rest
  end.

(** [_cleanup_stale_flows] *)
Definition _cleanup_stale_flows (self : FeatureExtractor) (current_time : Q)
  : result (FeatureExtractor * list FlowFeatures.t) :=
  '(completed_features, flows_to_remove) <-
    scan_stale self current_time (_flows self) [] [] ;;
  self <- remove_flows self flows_to_remove ;;
  Ok (self, completed_features).

(** The list comprehension of [finalize_all_flows]. *)
Fixpoint extract_all (values : list FlowStats.t)
  : result (list FlowFeatures.t) :=
  match values with
  | [] => Ok []
  | fs :: rest =>
      f <- _extract_features fs ;;
      fs' <- extract_all rest ;;
      Ok (f :: fs')
  end.

(** [finalize_all_flows] *)
Definition finalize_all_flows (self : FeatureExtractor)
  : result (FeatureExtractor * list FlowFeatures.t) :=
  features <- extract_all (Dict.values (_flows self)) ;;
  let self :=
    set_total_flows_completed
      (_total_flows_completed self + Z.of_nat (List.length (_flows self)))
      self in
  let self := set_flows [] self in
  Ok (self, features).

(** [get_statistics] *)
Definition get_statistics (self : FeatureExtractor) : list (string * Z) :=
  [ ("active_flows"%string, Z.of_nat (List.length (_flows self)));
    ("total_flows_created"%string, _total_flows_created self);
    ("total_flows_completed"%string, _total_flows_completed self) ].

(** [get_active_flow_count] *)
Definition get_active_flow_count (self : FeatureExtractor) : Z :=
  Z.of_nat (List.length (_flows self)).

(** *** Ingest *)

(** Lines 66-81 of [process_packet]: the accumulator of the packet's
    conversation, the key it is stored under, and the direction.  A new
    accumulator is stored under the packet's own key. *)
Definition resolve_flow (self : FeatureExtractor) (packet : PacketInfo.t)
  : FeatureExtractor * FlowKey.t * FlowStats.t * bool :=
  let flow_key := _create_flow_key packet in
  let reverse_key := FlowKey.reverse flow_key in
  match Dict.get flow_key (_flows self) with
  | Some flow_stats => (self, flow_key, flow_stats, true)
  | None =>
      match Dict.get reverse_key (_flows self) with
      | Some flow_stats => (self, reverse_key, flow_stats, false)
      | None =>
          let flow_stats :=
            FlowStats.new flow_key (PacketInfo.timestamp packet)
              (PacketInfo.timestamp packet) in
          let self := set_flows (Dict.set flow_key flow_stats (_flows self)) self in
          let self :=
            set_total_flows_created (_total_flows_created self + 1) self in
          (self, flow_key, flow_stats, true)
      end
  end.

(** [process_packet].  [now] and [now'] are the two readings of
    [time.time()].  The accumulator is a shared object: its update is
    visible in the table entry it was found in. *)
Definition process_packet (self : FeatureExtractor) (packet : PacketInfo.t)
    (now now' : Q)
  : result (FeatureExtractor * option FlowFeatures.t) :=
  let '(self, stored_key, flow_stats, is_forward) := resolve_flow self packet in
  let flow_stats := _update_flow_stats flow_stats packet is_forward in
  let self := set_flows (Dict.set stored_key flow_stats (_flows self)) self in
  if _is_flow_complete self flow_stats (PacketInfo.timestamp packet) then
    features <- _extract_features flow_stats ;;
    d <- Dict.del (FlowStats.flow_key flow_stats) (_flows self) ;;
    let self := set_flows d self in
    let self :=
      set_total_flows_completed (_total_flows_completed self + 1) self in
    Ok (self, Some features)
  else if negb (Qle_bool (now - _last_cleanup self) (cleanup_interval self)) then
    '(self, completed_features) <-
      _cleanup_stale_flows self (PacketInfo.timestamp packet) ;;
    let self := set_last_cleanup now' self in
    match completed_features with
    | f :: _ => Ok (self, Some f)
    | [] => Ok (self, None)
    end
  else Ok (self, None).

(** *** Sequences of calls *)

Inductive call : Type :=
| ProcessPacket (packet : PacketInfo.t) (now now' : Q)
| CleanupStaleFlows (current_time : Q)
| FinalizeAllFlows.

Definition step (self : FeatureExtractor) (c : call) : result FeatureExtractor :=
  match c with
  | ProcessPacket packet now now' =>
      '(self, _) <- process_packet self packet now now' ;; Ok self
  | CleanupStaleFlows current_time =>
      '(self, _) <- _cleanup_stale_flows self current_time ;; Ok self
  | FinalizeAllFlows =>
      '(self, _) <- finalize_all_flows self ;; Ok self
  end.

Fixpoint run (self : FeatureExtractor) (cs : list call)
  : result FeatureExtractor :=
  match cs with
  | [] => Ok self
  | c :: cs' => self <- step self c ;; run self cs'
  end.

End Extractor.

(** ** Inputs used to exercise the model *)

Module Sample.

Local Open Scope string_scope.

(** An integer square root, exact on the perfect squares; the properties
    below hold for every function in its place. *)
Definition fsqrt (q : Q) : Q := inject_Z (Z.sqrt (Qnum q / Z.pos (Qden q))).

Definition tcp (t : Q) (src dst : string) (sport dport len : Z)
  : PacketInfo.t :=
  PacketInfo.mk t src dst sport dport TCP len None 0.

(** The packets of the end-to-end examples: one conversation between
    [10.0.0.1:10] and [10.0.0.2:20]. *)
Definition A : PacketInfo.t := tcp 0 "10.0.0.1" "10.0.0.2" 10 20 100.
Definition B : PacketInfo.t := tcp (1 # 2) "10.0.0.2" "10.0.0.1" 20 10 200.
Definition C : PacketInfo.t := tcp 1 "10.0.0.1" "10.0.0.2" 10 20 150.
Definition D : PacketInfo.t := tcp 65 "10.0.0.1" "10.0.0.2" 10 20 50.

(** A second conversation. *)
Definition E : PacketInfo.t := tcp 70 "10.0.0.3" "10.0.0.4" 30 40 60.

(** A loopback packet whose two endpoints coincide: its key is its own
    reverse. *)
Definition L (t : Q) : PacketInfo.t :=
  PacketInfo.mk t "127.0.0.1" "127.0.0.1" 0 0 ICMP 84 None 56.

Definition k : FlowKey.t := _create_flow_key A.

(** [FeatureExtractor(flow_timeout=60.0, cleanup_interval=30.0)] at time 0. *)
Definition fresh : FeatureExtractor := __init__ 60 30 0.

(** Calls of [process_packet] during which the clock stays at [0], so the
    periodic sweep is not due. *)
Definition ingest (ps : list PacketInfo.t) : list call :=
  map (fun p => ProcessPacket p 0 0) ps.

(** The state a sequence of calls leaves the fresh extractor in. *)
Definition state_after (cs : list call) : FeatureExtractor :=
  match run fsqrt fresh cs with
  | Ok self => self
  | Raise _ => fresh
  end.

(** Two open conversations, last seen at times 1 and 70. *)
Definition two_flows : FeatureExtractor := state_after (ingest [A; B; C; E]).

(** A third conversation, late enough for the first two to be stale. *)
Definition F : PacketInfo.t := tcp 200 "10.0.0.5" "10.0.0.6" 50 60 70.

(** [FeatureExtractor(flow_timeout=0.0, cleanup_interval=30.0)] at time 0. *)
Definition fresh0 : FeatureExtractor := __init__ 0 30 0.

End Sample.

(** ** Invariants of the flow table *)

(** Every accumulator is stored under its own [flow_key]. *)
Definition keyed (d : Dict.t) : Prop :=
  Forall (fun kv => FlowStats.flow_key (snd kv) = fst kv) d.

(** A key and its reverse index an accumulator only when they are one key. *)
Definition single (d : Dict.t) : Prop :=
  forall k, In k (Dict.keys d) -> In (FlowKey.reverse k) (Dict.keys d) ->
            FlowKey.reverse k = k.

(** No inter-arrival sample of the accumulator is negative. *)
Definition iat_nonneg (s : FlowStats.t) : Prop :=
  Forall (fun x => 0 <= x)%Q (FlowStats.fwd_iat s)
  /\ Forall (fun x => 0 <= x)%Q (FlowStats.bwd_iat s).

Definition iat_ok (d : Dict.t) : Prop :=
  Forall (fun kv => iat_nonneg (snd kv)) d.

(** Every accumulator created is active or was completed once. *)
Definition counted (self : FeatureExtractor) : Prop :=
  _total_flows_created self
  = Z.of_nat (List.length (_flows self)) + _total_flows_completed self.

Definition inv (self : FeatureExtractor) : Prop :=
  Dict.ok (_flows self) /\ keyed (_flows self) /\ single (_flows self)
  /\ iat_ok (_flows self) /\ counted self.

(** The entries a deletion of [k] leaves. *)
Definition without (k : FlowKey.t) (d : Dict.t) : Dict.t :=
  filter (fun kv => negb (FlowKey.eqb k (fst kv))) d.

(** ** The statistics of the specification *)

(** The arithmetic mean: the sum over the number of elements. *)
Definition arithmetic_mean (xs : list Q) : Q :=
  (py_sum xs / inject_Z (Z.of_nat (List.length xs)))%Q.

(** The sample standard deviation: the square root of the sum of squared
    deviations from the mean over [n - 1]. *)
Definition sample_stddev (fsqrt : Q -> Q) (xs : list Q) : Q :=
  fsqrt
    (py_sum
       (map (fun x => (x - arithmetic_mean xs) * (x - arithmetic_mean xs))%Q xs)
     / inject_Z (Z.of_nat (List.length xs) - 1))%Q.

(** One feature vector per accumulator, in order. *)
Definition extracted (fsqrt : Q -> Q) (values : list FlowStats.t)
    (fs : list FlowFeatures.t) : Prop :=
  Forall2 (fun s f => _extract_features fsqrt s = Ok f) values fs.

(** The staleness test of the sweep on a table entry, and its negation. *)
Definition stale (self : FeatureExtractor) (now : Q)
    (kv : FlowKey.t * FlowStats.t) : bool :=
  _is_flow_complete self (snd kv) now.

Definition fresh_entry (self : FeatureExtractor) (now : Q)
    (kv : FlowKey.t * FlowStats.t) : bool :=
  negb (stale self now kv).

(** Membership of a key in a list of keys. *)
Definition mem (k : FlowKey.t) (ks : list FlowKey.t) : bool :=
  existsb (FlowKey.eqb k) ks.

(** After a call of [process_packet] that returned [r], the accumulator [s]
    of key [k] is the table entry of [k], or it was removed and [r] is its
    feature vector. *)
Definition kept_or_emitted (fsqrt : Q -> Q) (self : FeatureExtractor)
    (r : option FlowFeatures.t) (k : FlowKey.t) (s : FlowStats.t) : Prop :=
  Dict.get k (_flows self) = Some s
  \/ (Dict.get k (_flows self) = None
      /\ exists f, _extract_features fsqrt s = Ok f /\ r = Some f).

(** The packet is counted in the forward direction of the accumulator. *)
Definition counted_forward (s s' : FlowStats.t) (p : PacketInfo.t) : Prop :=
  FlowStats.fwd_packet_count s' = FlowStats.fwd_packet_count s + 1
  /\ FlowStats.fwd_packet_lengths s'
     = FlowStats.fwd_packet_lengths s ++ [PacketInfo.length p]
  /\ FlowStats.bwd_packet_count s' = FlowStats.bwd_packet_count s
  /\ FlowStats.bwd_packet_lengths s' = FlowStats.bwd_packet_lengths s.

(** The packet is counted in the backward direction of the accumulator. *)
Definition counted_backward (s s' : FlowStats.t) (p : PacketInfo.t) : Prop :=
  FlowStats.bwd_packet_count s' = FlowStats.bwd_packet_count s + 1
  /\ FlowStats.bwd_packet_lengths s'
     = FlowStats.bwd_packet_lengths s ++ [PacketInfo.length p]
  /\ FlowStats.fwd_packet_count s' = FlowStats.fwd_packet_count s
  /\ FlowStats.fwd_packet_lengths s' = FlowStats.fwd_packet_lengths s.

(** The calls that ingest a packet of the conversation of [k]. *)
Definition of_conversation (k : FlowKey.t) (c : call) : Prop :=
  match c with
  | ProcessPacket p _ _ =>
      _create_flow_key p = k \/ _create_flow_key p = FlowKey.reverse k
  | CleanupStaleFlows _ => False
  | FinalizeAllFlows => False
  end.

(** The lengths of the ingested packets whose key is [k], in call order. *)
Fixpoint lengths_with_key (k : FlowKey.t) (cs : list call) : list Z :=
  match cs with
  | [] => []
  | ProcessPacket p _ _ :: cs' =>
      if FlowKey.eqb (_create_flow_key p) k
      then PacketInfo.length p :: lengths_with_key k cs'
      else lengths_with_key k cs'
  | _ :: cs' => lengths_with_key k cs'
  end.

(** ** Shape of an accumulator *)

(** The two packet counters are the lengths of the two length sequences. *)
Definition counts_match (s : FlowStats.t) : Prop :=
  FlowStats.fwd_packet_count s
  = Z.of_nat (List.length (FlowStats.fwd_packet_lengths s))
  /\ FlowStats.bwd_packet_count s
     = Z.of_nat (List.length (FlowStats.bwd_packet_lengths s)).

(** A direction with [n] packets has [n - 1] inter-arrival samples, and none
    when it has no packet. *)
Definition iat_lengths (s : FlowStats.t) : Prop :=
  List.length (FlowStats.fwd_iat s)
  = (List.length (FlowStats.fwd_packet_lengths s) - 1)%nat
  /\ List.length (FlowStats.bwd_iat s)
     = (List.length (FlowStats.bwd_packet_lengths s) - 1)%nat.

(** The accumulator has counted a forward packet. *)
Definition started (s : FlowStats.t) : Prop :=
  (1 <= List.length (FlowStats.fwd_packet_lengths s))%nat.

Definition shaped (s : FlowStats.t) : Prop :=
  counts_match s /\ iat_lengths s /\ started s.

(** ** Runs that keep what the calls return *)

Section Outputs.

Variable fsqrt : Q -> Q.

(** The feature vectors a call hands to its caller. *)
Definition step_out (self : FeatureExtractor) (c : call)
  : result (FeatureExtractor * list FlowFeatures.t) :=
  match c with
  | ProcessPacket packet now now' =>
      '(self, r) <- process_packet fsqrt self packet now now' ;;
      Ok (self, match r with Some f => [f] | None => [] end)
  | CleanupStaleFlows current_time =>
      _cleanup_stale_flows fsqrt self current_time
  | FinalizeAllFlows => finalize_all_flows fsqrt self
  end.

Fixpoint run_out (self : FeatureExtractor) (cs : list call)
  : result (FeatureExtractor * list FlowFeatures.t) :=
  match cs with
  | [] => Ok (self, [])
  | c :: cs' =>
      '(self, out) <- step_out self c ;;
      '(self, outs) <- run_out self cs' ;;
      Ok (self, out ++ outs)
  end.

End Outputs.

(** What every feature vector drawn from a shaped accumulator shows. *)
Definition sound_features (f : FlowFeatures.t) : Prop :=
  1 <= FlowFeatures.total_fwd_packets f
  /\ 0 <= FlowFeatures.total_bwd_packets f
  /\ FlowFeatures.total_packets f
     = FlowFeatures.total_fwd_packets f + FlowFeatures.total_bwd_packets f
  /\ (0 <= FlowFeatures.flow_duration f)%Q
  /\ FlowFeatures.protocol f = FlowKey.protocol (FlowFeatures.flow_key f).

(** The timestamp of the last packet ingested by the calls, [t] when they
    ingest none. *)
Fixpoint last_timestamp_of (t : Q) (cs : list call) : Q :=
  match cs with
  | [] => t
  | ProcessPacket p _ _ :: cs' => last_timestamp_of (PacketInfo.timestamp p) cs'
  | _ :: cs' => last_timestamp_of t cs'
  end.

(** The flag strings of the ingested packets that carry one, in call order. *)
Fixpoint flags_of (cs : list call) : list string :=
  match cs with
  | [] => []
  | ProcessPacket p _ _ :: cs' =>
      match PacketInfo.flags p with
      | Some (String c f) => String c f :: flags_of cs'
      | _ => flags_of cs'
      end
  | _ :: cs' => flags_of cs'
  end.

(** The sequences of one direction of an accumulator. *)
Definition lengths_of (dir : bool) (s : FlowStats.t) : list Z :=
  if dir then FlowStats.fwd_packet_lengths s else FlowStats.bwd_packet_lengths s.

Definition iat_of (dir : bool) (s : FlowStats.t) : list Q :=
  if dir then FlowStats.fwd_iat s else FlowStats.bwd_iat s.


(** ** sniffer.py *)

(** What [_parse_packet] observes of a Scapy packet: its capture time and
    [len], and for each of the IP, TCP, UDP and ICMP layers whether the
    packet has it and the fields read from it.  A payload is [None] for
    Scapy's empty payload and its length otherwise. *)
Module Scapy.

Record TCPFlags : Type := mkFlags {
  F : bool; S : bool; R : bool; P : bool;
  A : bool; U : bool; E : bool; C : bool
}.

Record TCP : Type := mkTCP {
  tcp_sport : Z;
  tcp_dport : Z;
  tcp_flags : TCPFlags;
  tcp_payload : option Z
}.

Record UDP : Type := mkUDP {
  udp_sport : Z;
  udp_dport : Z;
  udp_payload : option Z
}.

Record ICMP : Type := mkICMP {
  icmp_type : Z;
  icmp_code : Z;
  icmp_payload : option Z
}.

Record IP : Type := mkIP {
  src : string;
  dst : string
}.

Record Packet : Type := mkPacket {
  time : Q;
  len : Z;
  ip : option IP;
  tcp : option TCP;
  udp : option UDP;
  icmp : option ICMP
}.

End Scapy.

(** [len(layer.payload) if layer.payload else 0] *)
Definition payload_len (payload : option Z) : Z :=
  match payload with
  | Some n => n
  | None => 0
  end.

(** [NetworkSentinel._get_tcp_flags] *)
Definition _get_tcp_flags (flags : Scapy.TCPFlags) : string :=
  let l := [] in
  let l := if Scapy.F flags then l ++ ["FIN"%string] else l in
  let l := if Scapy.S flags then l ++ ["SYN"%string] else l in
  let l := if Scapy.R flags then l ++ ["RST"%string] else l in
  let l := if Scapy.P flags then l ++ ["PSH"%string] else l in
  let l := if Scapy.A flags then l ++ ["ACK"%string] else l in
  let l := if Scapy.U flags then l ++ ["URG"%string] else l in
  let l := if Scapy.E flags then l ++ ["ECE"%string] else l in
  let l := if Scapy.C flags then l ++ ["CWR"%string] else l in
  if truthy l then String.concat "|" l else "NONE"%string.

(** [NetworkSentinel._parse_packet] *)
Definition _parse_packet (packet : Scapy.Packet) : option PacketInfo.t :=
  match Scapy.ip packet with
  | None => None
  | Some ip_layer =>
      let timestamp := Scapy.time packet in
      let src_ip := Scapy.src ip_layer in
      let dst_ip := Scapy.dst ip_layer in
      let length := Scapy.len packet in
      let '(src_port, dst_port, protocol, flags, payload_size) :=
        match Scapy.tcp packet with
        | Some tcp_layer =>
            (Scapy.tcp_sport tcp_layer, Scapy.tcp_dport tcp_layer, TCP,
             Some (_get_tcp_flags (Scapy.tcp_flags tcp_layer)),
             payload_len (Scapy.tcp_payload tcp_layer))
        | None =>
            match Scapy.udp packet with
            | Some udp_layer =>
                (Scapy.udp_sport udp_layer, Scapy.udp_dport udp_layer, UDP,
                 None, payload_len (Scapy.udp_payload udp_layer))
            | None =>
                match Scapy.icmp packet with
                | Some icmp_layer =>
                    (Scapy.icmp_type icmp_layer, Scapy.icmp_code icmp_layer,
                     ICMP, None, payload_len (Scapy.icmp_payload icmp_layer))
                | None => (0, 0, OTHER, None, 0)
                end
            end
        end in
      Some (PacketInfo.mk timestamp src_ip dst_ip src_port dst_port protocol
              length flags payload_size)
  end.

(** The capture state of a [NetworkSentinel]; [W] is the state the packet
    callback works on. *)
Module NetworkSentinel.

Section Sentinel.

Variable W : Type.

Record t : Type := mk {
  packet_callback : option (PacketInfo.t -> W -> W);
  queue_size : Z;
  packet_queue : list PacketInfo.t;
  _packets_captured : Z;
  _packets_dropped : Z
}.

(** [NetworkSentinel.__init__] *)
Definition __init__ (packet_callback : option (PacketInfo.t -> W -> W))
    (queue_size : Z) : t :=
  mk packet_callback queue_size [] 0 0.

(** [Queue.put_nowait]: [None] is the exception [queue.Full], raised by a
    queue with a positive [maxsize] that holds [maxsize] items. *)
Definition put_nowait (maxsize : Z) (queue : list PacketInfo.t)
    (item : PacketInfo.t) : option (list PacketInfo.t) :=
  if (0 <? maxsize)%Z && (maxsize <=? Z.of_nat (List.length queue))%Z
  then None
  else Some (queue ++ [item]).

(** [_packet_handler]: an exception of the callback is caught and logged,
    whatever the callback did to its state before. *)
Definition _packet_handler (self : t) (w : W) (packet : Scapy.Packet) : t * W :=
  match _parse_packet packet with
  | Some packet_info =>
      let self :=
        mk (packet_callback self) (queue_size self) (packet_queue self)
          (_packets_captured self + 1) (_packets_dropped self) in
      match packet_callback self with
      | Some callback => (self, callback packet_info w)
      | None =>
          match put_nowait (queue_size self) (packet_queue self) packet_info with
          | Some queue =>
              (mk (packet_callback self) (queue_size self) queue
                 (_packets_captured self) (_packets_dropped self), w)
          | None =>
              (mk (packet_callback self) (queue_size self) (packet_queue self)
                 (_packets_captured self) (_packets_dropped self + 1), w)
          end
      end
  | None => (self, w)
  end.

(** What a call of [get_packet] comes to: a packet, [None], or a wait for
    a packet that only a later capture can end. *)
Inductive got : Type :=
| Got (packet : PacketInfo.t)
| Nothing
| Waits.

(** [get_packet]: [Queue.get] checks a negative timeout of a blocking call
    before it looks at the queue, and every exception gives [None]. *)
Definition get_packet (self : t) (block : bool) (timeout : option Q) : t * got :=
  let take :=
    match packet_queue self with
    | item :: queue =>
        (mk (packet_callback self) (queue_size self) queue
           (_packets_captured self) (_packets_dropped self), Got item)
    | [] => (self, Nothing)
    end in
  if negb block then take
  else
    match timeout with
    | None =>
        match packet_queue self with
        | [] => (self, Waits)
        | _ :: _ => take
        end
    | Some t => if negb (Qle_bool 0 t) then (self, Nothing) else take
    end.

(** [get_statistics] *)
Definition get_statistics (self : t) : list (string * Z) :=
  [ ("packets_captured"%string, _packets_captured self);
    ("packets_dropped"%string, _packets_dropped self);
    ("queue_size"%string, Z.of_nat (List.length (packet_queue self))) ].

(** Captures and retrievals in the order they take effect. *)
Inductive event : Type :=
| Capture (packet : Scapy.Packet)
| GetPacket (block : bool) (timeout : option Q).

(** A run of events, with the packets that [get_packet] returned. *)
Fixpoint run (self : t) (w : W) (es : list event)
  : t * W * list PacketInfo.t :=
  match es with
  | [] => (self, w, [])
  | Capture packet :: es' =>
      let '(self, w) := _packet_handler self w packet in
      run self w es'
  | GetPacket block timeout :: es' =>
      let '(self, g) := get_packet self block timeout in
      let '(self, w, out) := run self w es' in
      (self, w, match g with Got p => p :: out | _ => out end)
  end.

(** The packets of the captures that have an IP layer, in capture order. *)
Fixpoint parsed (es : list event) : list PacketInfo.t :=
  match es with
  | [] => []
  | Capture packet :: es' =>
      match _parse_packet packet with
      | Some packet_info => packet_info :: parsed es'
      | None => parsed es'
      end
  | GetPacket _ _ :: es' => parsed es'
  end.

End Sentinel.

End NetworkSentinel.

(** Every value of the eight TCP flags. *)
Definition all_flags : list Scapy.TCPFlags :=
  let b := [false; true] in
  flat_map (fun f => flat_map (fun s => flat_map (fun r => flat_map (fun p =>
  flat_map (fun a => flat_map (fun u => flat_map (fun e =>
  map (fun c => Scapy.mkFlags f s r p a u e c) b) b) b) b) b) b) b) b.

Definition TCPFlags_eqb (x y : Scapy.TCPFlags) : bool :=
  Bool.eqb (Scapy.F x) (Scapy.F y) && Bool.eqb (Scapy.S x) (Scapy.S y)
  && Bool.eqb (Scapy.R x) (Scapy.R y) && Bool.eqb (Scapy.P x) (Scapy.P y)
  && Bool.eqb (Scapy.A x) (Scapy.A y) && Bool.eqb (Scapy.U x) (Scapy.U y)
  && Bool.eqb (Scapy.E x) (Scapy.E y) && Bool.eqb (Scapy.C x) (Scapy.C y).

(** ** ml/model.py, ml/detector.py and sentinel_integrated.py *)

(** Strict comparison of floats. *)
Definition Qlt_bool (a b : Q) : bool := negb (Qle_bool b a).

(** [numpy.clip(a, a_min, a_max)]: [minimum(a_max, maximum(a, a_min))]. *)
Definition np_clip (a a_min a_max : Q) : Q :=
  let m := if Qlt_bool a a_min then a_min else a in
  if Qlt_bool a_max m then a_max else m.

(** [AegisBrain._normalize_score] *)
Definition _normalize_score (raw_score : Q) : Q :=
  let normalized := (((1 # 2) - raw_score) / 1)%Q in
  np_clip normalized 0 1.

(** [AnomalyDetector._classify_threat] *)
Definition _classify_threat (anomaly_score : Q) : string :=
  if Qle_bool (8 # 10) anomaly_score then "HIGH"%string
  else if Qle_bool (6 # 10) anomaly_score then "MEDIUM"%string
  else "LOW"%string.

(** [SentinelIntegration._determine_threat_level] *)
Definition _determine_threat_level (anomaly_score : Q) : string :=
  if Qle_bool (8 # 10) anomaly_score then "HIGH"%string
  else if Qle_bool (6 # 10) anomaly_score then "MEDIUM"%string
  else "LOW"%string.

(** [SentinelIntegration._simulate_anomaly_detection]; [noise] is the value
    drawn by [random.uniform(0, 0.15)]. *)
Definition _simulate_anomaly_detection (features : FlowFeatures.t) (noise : Q)
  : bool * Q :=
  let score := 0%Q in
  let score :=
    if (100 <? FlowFeatures.total_packets features)%Z
    then (score + (3 # 10))%Q else score in
  let score :=
    if Qlt_bool (FlowFeatures.flow_duration features) 1
       || Qlt_bool 300 (FlowFeatures.flow_duration features)
    then (score + (2 # 10))%Q else score in
  let score :=
    if Qlt_bool 1400 (FlowFeatures.packet_length_mean features)
       || Qlt_bool (FlowFeatures.packet_length_mean features) 50
    then (score + (2 # 10))%Q else score in
  let score :=
    if Qlt_bool 500 (FlowFeatures.packet_length_std features)
    then (score + (15 # 100))%Q else score in
  let score := (score + noise)%Q in
  let is_anomaly := Qlt_bool (6 # 10) score in
  (is_anomaly, score).

(** The order of the threat levels. *)
Definition threat_rank (level : string) : Z :=
  if String.eqb level "HIGH" then 2
  else if String.eqb level "MEDIUM" then 1
  else 0.

(** * Properties *)

(** ** Flow keys *)

Lemma Protocol_eqb_eq (a b : Protocol) : Protocol_eqb a b = true <-> a = b.
Proof. destruct a, b; simpl; split; intro H; try reflexivity; discriminate. Qed.

Lemma FlowKey_eqb_eq (a b : FlowKey.t) : FlowKey.eqb a b = true <-> a = b.
Proof.
  unfold FlowKey.eqb. rewrite !andb_true_iff.
  rewrite !String.eqb_eq, !Z.eqb_eq, Protocol_eqb_eq.
  destruct a, b; simpl. split.
  - intros [[[[-> ->] ->] ->] ->]. reflexivity.
  - intros H; inversion H; subst. repeat split.
Qed.

Lemma FlowKey_eqb_refl (a : FlowKey.t) : FlowKey.eqb a a = true.
Proof. apply FlowKey_eqb_eq. reflexivity. Qed.

Lemma FlowKey_eqb_neq (a b : FlowKey.t) : FlowKey.eqb a b = false <-> a <> b.
Proof.
  split.
  - intros H ->. rewrite FlowKey_eqb_refl in H. discriminate.
  - intros H. destruct (FlowKey.eqb a b) eqn:E; [|reflexivity].
    apply FlowKey_eqb_eq in E. contradiction.
Qed.

Lemma reverse_involutive (k : FlowKey.t) :
  FlowKey.reverse (FlowKey.reverse k) = k.
Proof. destruct k. reflexivity. Qed.

(** C9. [reverse] is a function of its argument alone; reversing twice gives
    the key back, and a key whose source endpoint (address and port) differs
    from its destination endpoint is different from its reverse. *)
Theorem reverse_symmetry (k : FlowKey.t) :
  FlowKey.reverse (FlowKey.reverse k) = k
  /\ ((FlowKey.src_ip k, FlowKey.src_port k)
        <> (FlowKey.dst_ip k, FlowKey.dst_port k)
      -> FlowKey.reverse k <> k).
Proof.
  split.
  - apply reverse_involutive.
  - intros Hne Heq. apply Hne. destruct k as [si di sp dp pr].
    unfold FlowKey.reverse in Heq. simpl in *. inversion Heq. subst.
    reflexivity.
Qed.

Lemma reverse_symmetry_witness :
  FlowKey.reverse (FlowKey.reverse Sample.k) = Sample.k
  /\ FlowKey.reverse Sample.k <> Sample.k.
Proof.
  destruct (reverse_symmetry Sample.k) as [Hinv Hne].
  split; [exact Hinv | apply Hne; discriminate].
Defined.

(** ** The dictionary *)

Lemma get_None_notin (k : FlowKey.t) (d : Dict.t) :
  Dict.get k d = None <-> ~ In k (Dict.keys d).
Proof.
  induction d as [|[k' v] d IH]; simpl.
  - split; auto.
  - destruct (FlowKey.eqb k k') eqn:E.
    + apply FlowKey_eqb_eq in E. subst. split; [discriminate|].
      intros H. exfalso. apply H. now left.
    + apply FlowKey_eqb_neq in E. rewrite IH. split.
      * intros H [H1|H1]; [congruence | contradiction].
      * intros H H1. apply H. now right.
Qed.

Lemma get_Some_In (k : FlowKey.t) (v : FlowStats.t) (d : Dict.t) :
  Dict.get k d = Some v -> In (k, v) d.
Proof.
  induction d as [|[k' v'] d IH]; simpl; [discriminate|].
  destruct (FlowKey.eqb k k') eqn:E.
  - apply FlowKey_eqb_eq in E. subst. intros H. inversion H. now left.
  - intros H. right. auto.
Qed.

Lemma get_Some_key (k : FlowKey.t) (v : FlowStats.t) (d : Dict.t) :
  Dict.get k d = Some v -> In k (Dict.keys d).
Proof.
  intros H. apply get_Some_In in H. unfold Dict.keys.
  change k with (fst (k, v)). now apply in_map.
Qed.

Lemma In_get_Some (k : FlowKey.t) (v : FlowStats.t) (d : Dict.t) :
  Dict.ok d -> In (k, v) d -> Dict.get k d = Some v.
Proof.
  unfold Dict.ok, Dict.keys.
  induction d as [|[k' v'] d IH]; simpl; [contradiction|].
  intros Hnd [H|H].
  - inversion H; subst. now rewrite FlowKey_eqb_refl.
  - inversion Hnd as [|? ? Hni Hnd']; subst.
    destruct (FlowKey.eqb k k') eqn:E.
    + apply FlowKey_eqb_eq in E. subst. exfalso. apply Hni.
      change k' with (fst (k', v)). now apply in_map.
    + auto.
Qed.

Lemma keys_set_present (k : FlowKey.t) (v : FlowStats.t) (d : Dict.t) :
  In k (Dict.keys d) -> Dict.keys (Dict.set k v d) = Dict.keys d.
Proof.
  induction d as [|[k' v'] d IH]; simpl; [contradiction|].
  intros H. destruct (FlowKey.eqb k k') eqn:E; simpl; [reflexivity|].
  f_equal. apply IH. destruct H as [H|H]; [|exact H].
  apply FlowKey_eqb_neq in E. congruence.
Qed.

Lemma set_absent (k : FlowKey.t) (v : FlowStats.t) (d : Dict.t) :
  ~ In k (Dict.keys d) -> Dict.set k v d = d ++ [(k, v)].
Proof.
  induction d as [|[k' v'] d IH]; simpl; [reflexivity|].
  intros H. destruct (FlowKey.eqb k k') eqn:E.
  - apply FlowKey_eqb_eq in E. subst. exfalso. apply H. now left.
  - f_equal. apply IH. intros H1. apply H. now right.
Qed.

Lemma length_set_present (k : FlowKey.t) (v : FlowStats.t) (d : Dict.t) :
  In k (Dict.keys d) -> List.length (Dict.set k v d) = List.length d.
Proof.
  intros H. apply keys_set_present with (v := v) in H.
  unfold Dict.keys in H. apply (f_equal (@List.length _)) in H.
  now rewrite !length_map in H.
Qed.

Lemma get_set_same (k : FlowKey.t) (v : FlowStats.t) (d : Dict.t) :
  Dict.get k (Dict.set k v d) = Some v.
Proof.
  induction d as [|[k' v'] d IH]; simpl.
  - now rewrite FlowKey_eqb_refl.
  - destruct (FlowKey.eqb k k') eqn:E; simpl; rewrite E; auto.
Qed.

Lemma get_set_other (k k0 : FlowKey.t) (v : FlowStats.t) (d : Dict.t) :
  k0 <> k -> Dict.get k0 (Dict.set k v d) = Dict.get k0 d.
Proof.
  intros Hne. induction d as [|[k' v'] d IH]; simpl.
  - apply FlowKey_eqb_neq in Hne. now rewrite Hne.
  - destruct (FlowKey.eqb k k') eqn:E; simpl.
    + apply FlowKey_eqb_eq in E. subst k'.
      apply FlowKey_eqb_neq in Hne. now rewrite Hne.
    + destruct (FlowKey.eqb k0 k'); auto.
Qed.

Lemma Forall_set (P : FlowKey.t * FlowStats.t -> Prop) (k : FlowKey.t)
    (v : FlowStats.t) (d : Dict.t) :
  Forall P d -> P (k, v) -> Forall P (Dict.set k v d).
Proof.
  intros Hd Hv. induction d as [|[k' v'] d IH]; simpl.
  - constructor; auto.
  - inversion Hd; subst. destruct (FlowKey.eqb k k') eqn:E.
    + apply FlowKey_eqb_eq in E. subst. constructor; auto.
    + constructor; auto.
Qed.

Lemma del_absent (k : FlowKey.t) (d : Dict.t) :
  Dict.get k d = None -> Dict.del k d = Raise KeyError.
Proof.
  induction d as [|[k' v'] d IH]; simpl; [reflexivity|].
  destruct (FlowKey.eqb k k'); [discriminate|].
  intros H. now rewrite (IH H).
Qed.

Lemma without_notin (k : FlowKey.t) (d : Dict.t) :
  ~ In k (Dict.keys d) -> without k d = d.
Proof.
  intros Hni. unfold without. apply forallb_filter_id. apply forallb_forall.
  intros [k1 v1] H1. simpl. apply negb_true_iff. apply FlowKey_eqb_neq.
  intros ->. apply Hni. unfold Dict.keys.
  change k1 with (fst (k1, v1)). now apply in_map.
Qed.

Lemma without_cons (k k' : FlowKey.t) (v' : FlowStats.t) (d : Dict.t) :
  without k ((k', v') :: d)
  = if FlowKey.eqb k k' then without k d else (k', v') :: without k d.
Proof. unfold without. simpl. now destruct (FlowKey.eqb k k'). Qed.

Lemma del_present (k : FlowKey.t) (d : Dict.t) :
  Dict.ok d -> In k (Dict.keys d) -> Dict.del k d = Ok (without k d).
Proof.
  unfold Dict.ok.
  induction d as [|[k' v'] d IH]; [contradiction|].
  intros Hnd Hin. simpl in Hnd, Hin. inversion Hnd as [|? ? Hni Hnd']; subst.
  rewrite without_cons. simpl.
  destruct (FlowKey.eqb k k') eqn:E.
  - apply FlowKey_eqb_eq in E. subst k'. now rewrite without_notin.
  - destruct Hin as [Hin|Hin].
    + apply FlowKey_eqb_neq in E. congruence.
    + now rewrite (IH Hnd' Hin).
Qed.

Lemma length_without (k : FlowKey.t) (d : Dict.t) :
  Dict.ok d -> In k (Dict.keys d) ->
  List.length d = S (List.length (without k d)).
Proof.
  unfold Dict.ok.
  induction d as [|[k' v'] d IH]; [contradiction|].
  intros Hnd Hin. simpl in Hnd, Hin. inversion Hnd as [|? ? Hni Hnd']; subst.
  rewrite without_cons. simpl.
  destruct (FlowKey.eqb k k') eqn:E.
  - apply FlowKey_eqb_eq in E. subst k'. now rewrite without_notin.
  - simpl. f_equal. destruct Hin as [Hin|Hin].
    + apply FlowKey_eqb_neq in E. congruence.
    + auto.
Qed.

(** ** Filtering the table keeps its invariants *)

Lemma keys_filter_incl (q : FlowKey.t * FlowStats.t -> bool) (d : Dict.t)
    (k : FlowKey.t) :
  In k (Dict.keys (filter q d)) -> In k (Dict.keys d).
Proof.
  unfold Dict.keys. rewrite !in_map_iff.
  intros [x [Hx Hin]]. exists x. split; [exact Hx|].
  apply filter_In in Hin. tauto.
Qed.

Lemma ok_filter (q : FlowKey.t * FlowStats.t -> bool) (d : Dict.t) :
  Dict.ok d -> Dict.ok (filter q d).
Proof.
  unfold Dict.ok. induction d as [|kv d IH]; simpl; [auto|].
  intros Hnd. inversion Hnd as [|? ? Hni Hnd']; subst.
  destruct (q kv); simpl; auto.
  constructor; auto. intros H. apply Hni. eapply keys_filter_incl; eauto.
Qed.

Lemma Forall_filter (P : FlowKey.t * FlowStats.t -> Prop)
    (q : FlowKey.t * FlowStats.t -> bool) (d : Dict.t) :
  Forall P d -> Forall P (filter q d).
Proof.
  rewrite !Forall_forall. intros H x Hx. apply H.
  apply filter_In in Hx. tauto.
Qed.

Lemma single_filter (q : FlowKey.t * FlowStats.t -> bool) (d : Dict.t) :
  single d -> single (filter q d).
Proof.
  unfold single. intros H k H1 H2.
  apply H; eapply keys_filter_incl; eauto.
Qed.

(** ** Safe statistics *)

Section Statistics.

Variable fsqrt : Q -> Q.

Lemma _safe_mean_total (xs : list Q) : exists m, _safe_mean xs = Ok m.
Proof. unfold _safe_mean, statistics_mean. destruct xs; simpl; eauto. Qed.

Lemma _safe_std_total (xs : list Q) : exists s, _safe_std fsqrt xs = Ok s.
Proof.
  unfold _safe_std, statistics_stdev, statistics_variance.
  destruct (1 <? Z.of_nat (List.length xs))%Z eqn:E; [|eauto].
  apply Z.ltb_lt in E.
  destruct (Z.of_nat (List.length xs) <? 2)%Z eqn:E2.
  - apply Z.ltb_lt in E2. lia.
  - destruct xs; simpl in *; [lia | eauto].
Qed.

Lemma _safe_std_two (xs : list Q) :
  (2 <= List.length xs)%nat -> _safe_std fsqrt xs = Ok (sample_stddev fsqrt xs).
Proof.
  intros H. unfold _safe_std, statistics_stdev, statistics_variance.
  destruct (1 <? Z.of_nat (List.length xs))%Z eqn:E.
  - destruct (Z.of_nat (List.length xs) <? 2)%Z eqn:E2.
    + apply Z.ltb_lt in E2. lia.
    + destruct xs; simpl in H; [lia|]. reflexivity.
  - apply Z.ltb_ge in E. lia.
Qed.

(** C8. The statistics helpers never raise and fall back to zero: the mean
    of the empty list is 0.0, the standard deviation of the empty list and
    of every one-element list is 0.0; on two or more elements the standard
    deviation is the sample standard deviation and the mean is the
    arithmetic mean. *)
Theorem safe_statistics :
  _safe_mean [] = Ok 0%Q
  /\ _safe_std fsqrt [] = Ok 0%Q
  /\ (forall x, _safe_std fsqrt [x] = Ok 0%Q)
  /\ (forall xs, (2 <= List.length xs)%nat ->
        _safe_std fsqrt xs = Ok (sample_stddev fsqrt xs)
        /\ _safe_mean xs = Ok (arithmetic_mean xs))
  /\ (forall xs, xs <> [] -> _safe_mean xs = Ok (arithmetic_mean xs))
  /\ (forall xs, exists m s, _safe_mean xs = Ok m /\ _safe_std fsqrt xs = Ok s).
Proof.
  repeat split.
  - now apply _safe_std_two.
  - destruct xs; simpl in H; [lia | reflexivity].
  - destruct xs; [contradiction | reflexivity].
  - intros xs. destruct (_safe_mean_total xs) as [m Hm].
    destruct (_safe_std_total xs) as [s Hs]. eauto.
Qed.

Lemma _extract_features_total (flow_stats : FlowStats.t) :
  exists f, _extract_features fsqrt flow_stats = Ok f.
Proof.
  unfold _extract_features.
  repeat match goal with
  | |- context [_safe_mean ?xs] =>
      let m := fresh "m" in let Hm := fresh "Hm" in
      destruct (_safe_mean_total xs) as [m Hm]; rewrite Hm; clear Hm; simpl
  | |- context [_safe_std fsqrt ?xs] =>
      let m := fresh "s" in let Hm := fresh "Hs" in
      destruct (_safe_std_total xs) as [m Hm]; rewrite Hm; clear Hm; simpl
  end.
  eauto.
Qed.

Lemma _extract_features_key (flow_stats : FlowStats.t) (f : FlowFeatures.t) :
  _extract_features fsqrt flow_stats = Ok f ->
  FlowFeatures.flow_key f = FlowStats.flow_key flow_stats
  /\ FlowFeatures.total_fwd_packets f = FlowStats.fwd_packet_count flow_stats
  /\ FlowFeatures.total_bwd_packets f = FlowStats.bwd_packet_count flow_stats.
Proof.
  unfold _extract_features.
  repeat match goal with
  | |- context [_safe_mean ?xs] =>
      let m := fresh "m" in let Hm := fresh "Hm" in
      destruct (_safe_mean_total xs) as [m Hm]; rewrite Hm; clear Hm; simpl
  | |- context [_safe_std fsqrt ?xs] =>
      let m := fresh "s" in let Hm := fresh "Hs" in
      destruct (_safe_std_total xs) as [m Hm]; rewrite Hm; clear Hm; simpl
  end.
  intros H. inversion H. simpl. auto.
Qed.

Lemma extract_all_total (values : list FlowStats.t) :
  exists fs, extract_all fsqrt values = Ok fs /\ extracted fsqrt values fs.
Proof.
  induction values as [|s values [fs [H1 H2]]]; simpl.
  - exists []. split; [reflexivity | constructor].
  - destruct (_extract_features_total s) as [f Hf]. rewrite Hf. simpl.
    rewrite H1. simpl. exists (f :: fs). split; [reflexivity|].
    constructor; assumption.
Qed.

End Statistics.

Lemma safe_statistics_witness :
  (2 <= List.length [1; 3; 5]%Q)%nat
  /\ _safe_std Sample.fsqrt [1; 3; 5]%Q = Ok (sample_stddev Sample.fsqrt [1; 3; 5]%Q)
  /\ _safe_mean [1; 3; 5]%Q = Ok (arithmetic_mean [1; 3; 5]%Q).
Proof.
  split; [simpl; lia|].
  apply (proj1 (proj2 (proj2 (proj2 (safe_statistics Sample.fsqrt))))).
  simpl; lia.
Defined.

(** ** Updating an accumulator *)

Ltac update_cases :=
  unfold _update_flow_stats;
  repeat match goal with
  | |- context [if ?b then _ else _] => destruct b
  | |- context [match PacketInfo.flags ?p with _ => _ end] =>
      destruct (PacketInfo.flags p)
  end; simpl.

Lemma update_flow_key (s : FlowStats.t) (p : PacketInfo.t) (dir : bool) :
  FlowStats.flow_key (_update_flow_stats s p dir) = FlowStats.flow_key s.
Proof. update_cases; reflexivity. Qed.

Lemma update_last_timestamp (s : FlowStats.t) (p : PacketInfo.t) (dir : bool) :
  FlowStats.last_timestamp (_update_flow_stats s p dir) = PacketInfo.timestamp p.
Proof. update_cases; reflexivity. Qed.

Lemma update_forward (s : FlowStats.t) (p : PacketInfo.t) :
  let s' := _update_flow_stats s p true in
  FlowStats.fwd_packet_count s' = FlowStats.fwd_packet_count s + 1
  /\ FlowStats.fwd_packet_lengths s'
     = FlowStats.fwd_packet_lengths s ++ [PacketInfo.length p]
  /\ FlowStats.bwd_packet_count s' = FlowStats.bwd_packet_count s
  /\ FlowStats.bwd_packet_lengths s' = FlowStats.bwd_packet_lengths s.
Proof. update_cases; repeat split. Qed.

Lemma update_backward (s : FlowStats.t) (p : PacketInfo.t) :
  let s' := _update_flow_stats s p false in
  FlowStats.bwd_packet_count s' = FlowStats.bwd_packet_count s + 1
  /\ FlowStats.bwd_packet_lengths s'
     = FlowStats.bwd_packet_lengths s ++ [PacketInfo.length p]
  /\ FlowStats.fwd_packet_count s' = FlowStats.fwd_packet_count s
  /\ FlowStats.fwd_packet_lengths s' = FlowStats.fwd_packet_lengths s.
Proof. update_cases; repeat split. Qed.

Lemma py_max_nonneg (a : Q) : (0 <= py_max a 0)%Q.
Proof.
  unfold py_max. destruct (Qle_bool 0 a) eqn:E.
  - now apply Qle_bool_iff.
  - apply Qle_refl.
Qed.

Lemma next_iat_nonneg (first : Q) (iats : list Q) (t : Q) :
  (0 <= next_iat first iats t)%Q.
Proof. unfold next_iat. apply py_max_nonneg. Qed.

Lemma update_iat_nonneg (s : FlowStats.t) (p : PacketInfo.t) (dir : bool) :
  iat_nonneg s -> iat_nonneg (_update_flow_stats s p dir).
Proof.
  unfold iat_nonneg. intros [Hf Hb].
  update_cases; split; auto;
    apply Forall_app; split; auto; constructor; auto using next_iat_nonneg.
Qed.

(** The completion check of [process_packet] reads [last_timestamp] after
    [_update_flow_stats] has overwritten it with the packet's timestamp, so
    it compares the timeout with zero. *)
Lemma complete_after_update (self : FeatureExtractor) (s : FlowStats.t)
    (p : PacketInfo.t) (dir : bool) :
  _is_flow_complete self (_update_flow_stats s p dir) (PacketInfo.timestamp p)
  = Qle_bool (flow_timeout self) 0.
Proof.
  unfold _is_flow_complete. rewrite update_last_timestamp.
  destruct (Qle_bool (flow_timeout self) 0) eqn:E.
  - apply Qle_bool_iff. apply Qle_bool_iff in E. lra.
  - destruct (Qle_bool (flow_timeout self)
                (PacketInfo.timestamp p - PacketInfo.timestamp p)) eqn:E2;
      [|reflexivity].
    apply Qle_bool_iff in E2.
    assert (H : (flow_timeout self <= 0)%Q) by lra.
    apply Qle_bool_iff in H. congruence.
Qed.

Lemma is_flow_complete_iff (self : FeatureExtractor) (s : FlowStats.t) (now : Q) :
  _is_flow_complete self s now = true
  <-> (flow_timeout self <= now - FlowStats.last_timestamp s)%Q.
Proof. unfold _is_flow_complete. apply Qle_bool_iff. Qed.

(** ** Sweep *)

Lemma mem_In (k : FlowKey.t) (ks : list FlowKey.t) : mem k ks = true <-> In k ks.
Proof.
  unfold mem. rewrite existsb_exists. split.
  - intros [x [Hx E]]. apply FlowKey_eqb_eq in E. now subst.
  - intros H. exists k. split; [exact H | apply FlowKey_eqb_refl].
Qed.

Lemma entry_unique (d : Dict.t) (x y : FlowKey.t * FlowStats.t) :
  Dict.ok d -> In x d -> In y d -> fst x = fst y -> x = y.
Proof.
  unfold Dict.ok, Dict.keys. induction d as [|kv d IH]; simpl; [contradiction|].
  intros Hnd Hx Hy E. inversion Hnd as [|? ? Hni Hnd']; subst.
  destruct Hx as [Hx|Hx], Hy as [Hy|Hy]; subst; auto.
  - exfalso. apply Hni. rewrite E. now apply in_map.
  - exfalso. apply Hni. rewrite <- E. now apply in_map.
Qed.

Lemma filter_twice {A : Type} (q r : A -> bool) (l : list A) :
  filter q (filter r l) = filter (fun x => r x && q x) l.
Proof.
  induction l as [|a l IH]; simpl; [reflexivity|].
  destruct (r a); simpl; [destruct (q a)|]; now rewrite IH.
Qed.

Lemma filter_collected (q : FlowKey.t * FlowStats.t -> bool) (d : Dict.t) :
  Dict.ok d ->
  filter (fun kv => negb (mem (fst kv) (Dict.keys (filter q d)))) d
  = filter (fun kv => negb (q kv)) d.
Proof.
  intros Hok. apply filter_ext_in. intros kv Hkv. f_equal.
  destruct (q kv) eqn:E.
  - apply mem_In. unfold Dict.keys. apply in_map. apply filter_In. auto.
  - destruct (mem (fst kv) (Dict.keys (filter q d))) eqn:M; [|reflexivity].
    apply mem_In in M. unfold Dict.keys in M. apply in_map_iff in M.
    destruct M as [kv' [Hfst Hin]]. apply filter_In in Hin.
    destruct Hin as [Hin Hq].
    assert (kv' = kv) by (eapply entry_unique; eauto). subst. congruence.
Qed.

Lemma remove_flows_spec (ks : list FlowKey.t) :
  forall self,
    Dict.ok (_flows self) -> NoDup ks -> incl ks (Dict.keys (_flows self)) ->
    remove_flows self ks
    = Ok (mkExtractor (flow_timeout self) (cleanup_interval self)
            (filter (fun kv => negb (mem (fst kv) ks)) (_flows self))
            (_last_cleanup self) (_total_flows_created self)
            (_total_flows_completed self + Z.of_nat (List.length ks))).
Proof.
  induction ks as [|k ks IH]; intros self Hok Hnd Hincl.
  - simpl. destruct self; simpl. rewrite Z.add_0_r.
    f_equal. f_equal. symmetry. apply forallb_filter_id.
    apply forallb_forall. reflexivity.
  - inversion Hnd as [|? ? Hni Hnd']; subst.
    cbn [remove_flows].
    rewrite del_present by (auto; apply Hincl; now left). cbn [bind].
    rewrite IH; cbn [_flows set_flows set_total_flows_completed
                     flow_timeout cleanup_interval _last_cleanup
                     _total_flows_created _total_flows_completed].
    + f_equal. f_equal; [|rewrite length_cons; lia].
      unfold without. rewrite filter_twice. apply filter_ext.
      intros [k' v']. cbn [fst mem existsb]. unfold mem.
      rewrite negb_orb. f_equal.
      f_equal. destruct (FlowKey.eqb k k') eqn:E.
      * apply FlowKey_eqb_eq in E. subst. now rewrite FlowKey_eqb_refl.
      * apply FlowKey_eqb_neq in E. symmetry. apply FlowKey_eqb_neq. congruence.
    + apply ok_filter. exact Hok.
    + exact Hnd'.
    + intros x Hx. unfold without, Dict.keys. apply in_map_iff.
      assert (Hx' : In x (Dict.keys (_flows self))) by (apply Hincl; now right).
      unfold Dict.keys in Hx'. apply in_map_iff in Hx'.
      destruct Hx' as [kv [Hfst Hin]]. exists kv. split; [exact Hfst|].
      apply filter_In. split; [exact Hin|]. apply negb_true_iff.
      apply FlowKey_eqb_neq. intros ->. subst. contradiction.
Qed.

Section Sweep.

Variable fsqrt : Q -> Q.

Lemma scan_stale_spec (self : FeatureExtractor) (now : Q)
    (items : list (FlowKey.t * FlowStats.t)) :
  forall acc_f acc_k,
  exists feats,
    extracted fsqrt (Dict.values (filter (stale self now) items)) feats
    /\ scan_stale fsqrt self now items acc_f acc_k
       = Ok (acc_f ++ feats, acc_k ++ Dict.keys (filter (stale self now) items)).
Proof.
  induction items as [|[k s] items IH]; intros acc_f acc_k.
  - exists []. split; [constructor|]. simpl. now rewrite !app_nil_r.
  - assert (Hst : stale self now (k, s) = _is_flow_complete self s now)
      by reflexivity.
    cbn [scan_stale filter]. rewrite Hst.
    destruct (_is_flow_complete self s now).
    + destruct (_extract_features_total fsqrt s) as [f Hf]. rewrite Hf.
      cbn [bind]. destruct (IH (acc_f ++ [f]) (acc_k ++ [k])) as [feats [H1 H2]].
      exists (f :: feats). split.
      * constructor; assumption.
      * rewrite H2. cbn [Dict.keys map fst]. now rewrite <- !app_assoc.
    + apply IH.
Qed.

Lemma _cleanup_stale_flows_spec (self : FeatureExtractor) (now : Q) :
  Dict.ok (_flows self) ->
  exists feats,
    extracted fsqrt (Dict.values (filter (stale self now) (_flows self))) feats
    /\ scan_stale fsqrt self now (_flows self) [] []
       = Ok (feats, Dict.keys (filter (stale self now) (_flows self)))
    /\ _cleanup_stale_flows fsqrt self now
       = Ok (mkExtractor (flow_timeout self) (cleanup_interval self)
               (filter (fresh_entry self now) (_flows self))
               (_last_cleanup self) (_total_flows_created self)
               (_total_flows_completed self + Z.of_nat (List.length feats)),
             feats).
Proof.
  intros Hok. unfold _cleanup_stale_flows.
  destruct (scan_stale_spec self now (_flows self) [] []) as [feats [H1 H2]].
  cbn [app] in H2. exists feats. split; [exact H1|]. split; [exact H2|].
  rewrite H2. cbn [bind].
  rewrite remove_flows_spec.
  - cbn [bind]. rewrite filter_collected by exact Hok.
    apply Forall2_length in H1. unfold Dict.values, Dict.keys in *.
    rewrite length_map in *. now rewrite H1.
  - exact Hok.
  - apply ok_filter. exact Hok.
  - intros k Hk. eapply keys_filter_incl. exact Hk.
Qed.

End Sweep.

(** C4. On every table, the sweep at time [now] removes exactly the
    accumulators with [now - last_timestamp >= flow_timeout], returns one
    feature vector for each of them, all of them and in table order, and
    leaves the other accumulators in the table as they were.  The stale keys
    are collected by a pass over the unmodified table, and the removals
    run on the collected list afterwards. *)
Theorem sweep_removes_exactly_stale (fsqrt : Q -> Q) (self : FeatureExtractor)
    (now : Q) :
  Dict.ok (_flows self) ->
  exists self' feats,
    _cleanup_stale_flows fsqrt self now = Ok (self', feats)
    /\ _flows self' = filter (fresh_entry self now) (_flows self)
    /\ (forall k s, In (k, s) (_flows self')
          <-> In (k, s) (_flows self)
              /\ ~ (flow_timeout self <= now - FlowStats.last_timestamp s)%Q)
    /\ extracted fsqrt
         (Dict.values (filter (stale self now) (_flows self))) feats
    /\ (forall k s, In (k, s) (filter (stale self now) (_flows self))
          <-> In (k, s) (_flows self)
              /\ (flow_timeout self <= now - FlowStats.last_timestamp s)%Q)
    /\ (List.length feats + List.length (_flows self')
        = List.length (_flows self))%nat
    /\ _total_flows_completed self'
       = _total_flows_completed self + Z.of_nat (List.length feats)
    /\ scan_stale fsqrt self now (_flows self) [] []
       = Ok (feats, Dict.keys (filter (stale self now) (_flows self)))
    /\ remove_flows self (Dict.keys (filter (stale self now) (_flows self)))
       = Ok self'.
Proof.
  intros Hok.
  destruct (_cleanup_stale_flows_spec fsqrt self now Hok)
    as [feats [Hext [Hscan Hclean]]].
  eexists. exists feats. split; [exact Hclean|].
  cbn [_flows _total_flows_completed].
  assert (Hlen : List.length feats
                 = List.length (filter (stale self now) (_flows self))).
  { apply Forall2_length in Hext. unfold Dict.values in Hext.
    now rewrite length_map in Hext. }
  split; [reflexivity|]. split.
  { intros k s. split.
    - intros H. apply filter_In in H. destruct H as [Hin H]. split; [exact Hin|].
      unfold fresh_entry, stale in H. cbn [snd] in H.
      apply negb_true_iff in H. intros Hle.
      apply is_flow_complete_iff in Hle. congruence.
    - intros [Hin Hnle]. apply filter_In. split; [exact Hin|].
      unfold fresh_entry, stale. cbn [snd]. apply negb_true_iff.
      destruct (_is_flow_complete self s now) eqn:E; [|reflexivity].
      apply is_flow_complete_iff in E. contradiction. }
  split; [exact Hext|]. split.
  { intros k s. split.
    - intros H. apply filter_In in H. destruct H as [Hin H]. split; [exact Hin|].
      unfold stale in H. cbn [snd] in H. now apply is_flow_complete_iff.
    - intros [Hin Hle]. apply filter_In. split; [exact Hin|].
      unfold stale. cbn [snd]. now apply is_flow_complete_iff. }
  split.
  { rewrite Hlen. unfold fresh_entry, stale.
    clear. induction (_flows self) as [|kv d IH]; [reflexivity|].
    simpl. destruct (_is_flow_complete self (snd kv) now); simpl; lia. }
  split; [reflexivity|]. split; [exact Hscan|].
  rewrite remove_flows_spec.
  - rewrite filter_collected by exact Hok. rewrite Hlen.
    unfold Dict.keys. now rewrite length_map.
  - exact Hok.
  - apply ok_filter. exact Hok.
  - intros k Hk. eapply keys_filter_incl. exact Hk.
Qed.

Lemma two_flows_ok : Dict.ok (_flows Sample.two_flows).
Proof.
  unfold Dict.ok. vm_compute.
  constructor; [intros [H|[]]; discriminate|].
  constructor; [intros []|constructor].
Qed.

Lemma sweep_removes_exactly_stale_witness :
  Dict.ok (_flows Sample.two_flows)
  /\ exists self' feats,
       _cleanup_stale_flows Sample.fsqrt Sample.two_flows 100 = Ok (self', feats)
       /\ (List.length feats + List.length (_flows self') = 2)%nat.
Proof.
  split; [exact two_flows_ok|].
  destruct (sweep_removes_exactly_stale Sample.fsqrt Sample.two_flows 100
              two_flows_ok)
    as (self' & feats & Hrun & _ & _ & _ & _ & Hlen & _).
  exists self', feats. split; [exact Hrun | exact Hlen].
Defined.

(** C5. On every table, the drain returns one feature vector per
    accumulator, whatever its last-seen time, so as many as the table held;
    the table is empty afterwards, and a second drain returns the empty
    list without raising. *)
Theorem drain_completeness (fsqrt : Q -> Q) (self : FeatureExtractor) :
  exists self' feats,
    finalize_all_flows fsqrt self = Ok (self', feats)
    /\ extracted fsqrt (Dict.values (_flows self)) feats
    /\ List.length feats = List.length (_flows self)
    /\ _flows self' = []
    /\ get_active_flow_count self' = 0
    /\ exists self'',
         finalize_all_flows fsqrt self' = Ok (self'', []) /\ _flows self'' = [].
Proof.
  unfold finalize_all_flows.
  destruct (extract_all_total fsqrt (Dict.values (_flows self)))
    as [feats [Hrun Hext]].
  rewrite Hrun. cbn [bind]. eexists. exists feats.
  split; [reflexivity|]. split; [exact Hext|]. split.
  - apply Forall2_length in Hext. unfold Dict.values in Hext.
    now rewrite length_map in Hext.
  - cbn. repeat split. eexists. split; reflexivity.
Qed.

(** ** The invariants along a run *)

Lemma inv_init (flow_timeout cleanup_interval now : Q) :
  inv (__init__ flow_timeout cleanup_interval now).
Proof.
  unfold inv, Dict.ok, keyed, single, iat_ok, counted. simpl.
  repeat split; try constructor. intros k [].
Qed.

Lemma inv_last_cleanup (self : FeatureExtractor) (v : Q) :
  inv self -> inv (set_last_cleanup v self).
Proof. destruct self. exact (fun H => H). Qed.

(** Dropping entries, with the completed counter raised by their number. *)
Lemma inv_shrink (self : FeatureExtractor)
    (q : FlowKey.t * FlowStats.t -> bool) (n : nat) :
  inv self ->
  (n + List.length (filter q (_flows self)) = List.length (_flows self))%nat ->
  inv (mkExtractor (flow_timeout self) (cleanup_interval self)
         (filter q (_flows self)) (_last_cleanup self)
         (_total_flows_created self)
         (_total_flows_completed self + Z.of_nat n)).
Proof.
  unfold inv, counted. intros (Hok & Hkey & Hsin & Hiat & Hcnt) Hlen.
  cbn [_flows _total_flows_created _total_flows_completed].
  repeat split.
  - now apply ok_filter.
  - now apply Forall_filter.
  - now apply single_filter.
  - now apply Forall_filter.
  - rewrite Hcnt. lia.
Qed.

Lemma inv_update (self : FeatureExtractor) (k : FlowKey.t) (s : FlowStats.t)
    (p : PacketInfo.t) (dir : bool) :
  inv self -> Dict.get k (_flows self) = Some s ->
  inv (set_flows (Dict.set k (_update_flow_stats s p dir) (_flows self)) self).
Proof.
  unfold inv, counted. intros (Hok & Hkey & Hsin & Hiat & Hcnt) Hget.
  assert (Hin : In k (Dict.keys (_flows self))) by (eapply get_Some_key; eauto).
  apply get_Some_In in Hget.
  cbn [_flows set_flows _total_flows_created _total_flows_completed].
  repeat split.
  - unfold Dict.ok. now rewrite keys_set_present.
  - apply Forall_set; [exact Hkey|]. cbn [fst snd].
    rewrite update_flow_key. unfold keyed in Hkey.
    rewrite Forall_forall in Hkey. exact (Hkey _ Hget).
  - unfold single. now rewrite keys_set_present.
  - apply Forall_set; [exact Hiat|]. cbn [snd]. apply update_iat_nonneg.
    unfold iat_ok in Hiat. rewrite Forall_forall in Hiat. exact (Hiat _ Hget).
  - now rewrite length_set_present.
Qed.

Lemma resolve_flow_cases (self : FeatureExtractor) (p : PacketInfo.t) :
  let key := _create_flow_key p in
  match Dict.get key (_flows self),
        Dict.get (FlowKey.reverse key) (_flows self) with
  | Some s, _ => resolve_flow self p = (self, key, s, true)
  | None, Some s => resolve_flow self p = (self, FlowKey.reverse key, s, false)
  | None, None =>
      resolve_flow self p
      = (mkExtractor (flow_timeout self) (cleanup_interval self)
           (_flows self
              ++ [(key, FlowStats.new key (PacketInfo.timestamp p)
                          (PacketInfo.timestamp p))])
           (_last_cleanup self) (_total_flows_created self + 1)
           (_total_flows_completed self),
         key,
         FlowStats.new key (PacketInfo.timestamp p) (PacketInfo.timestamp p),
         true)
  end.
Proof.
  intros key. unfold resolve_flow. fold key.
  destruct (Dict.get key (_flows self)) eqn:E1; [reflexivity|].
  destruct (Dict.get (FlowKey.reverse key) (_flows self)) eqn:E2; [reflexivity|].
  rewrite set_absent by (now apply get_None_notin). reflexivity.
Qed.

Lemma get_app_new (k : FlowKey.t) (s : FlowStats.t) (d : Dict.t) :
  Dict.get k d = None -> Dict.get k (d ++ [(k, s)]) = Some s.
Proof.
  intros H. rewrite <- (set_absent k s d) by (now apply get_None_notin).
  apply get_set_same.
Qed.

Lemma inv_create (self : FeatureExtractor) (key : FlowKey.t) (t : Q) :
  inv self ->
  Dict.get key (_flows self) = None ->
  Dict.get (FlowKey.reverse key) (_flows self) = None ->
  inv (mkExtractor (flow_timeout self) (cleanup_interval self)
         (_flows self ++ [(key, FlowStats.new key t t)])
         (_last_cleanup self) (_total_flows_created self + 1)
         (_total_flows_completed self)).
Proof.
  unfold inv, counted. intros (Hok & Hkey & Hsin & Hiat & Hcnt) Hk Hr.
  apply get_None_notin in Hk. apply get_None_notin in Hr.
  cbn [_flows _total_flows_created _total_flows_completed].
  assert (Hkeys : Dict.keys (_flows self ++ [(key, FlowStats.new key t t)])
                  = Dict.keys (_flows self) ++ [key]).
  { unfold Dict.keys. now rewrite map_app. }
  repeat split.
  - unfold Dict.ok. rewrite Hkeys. apply NoDup_app; auto.
    + repeat constructor. intros [].
    + intros x Hx [Hx'|[]]. subst. contradiction.
  - apply Forall_app. split; [exact Hkey|]. repeat constructor.
  - unfold single. rewrite Hkeys. intros k H1 H2.
    apply in_app_iff in H1. apply in_app_iff in H2.
    destruct H1 as [H1|[H1|[]]], H2 as [H2|[H2|[]]].
    + now apply Hsin.
    + exfalso. apply Hr. rewrite H2. now rewrite reverse_involutive.
    + subst k. contradiction.
    + congruence.
  - apply Forall_app. split; [exact Hiat|]. repeat constructor.
  - rewrite length_app. simpl. rewrite Hcnt. lia.
Qed.

(** The accumulator [resolve_flow] returns is the table entry at the key it
    returns, and the table it leaves keeps the invariants. *)
Lemma resolve_flow_inv (self : FeatureExtractor) (p : PacketInfo.t) :
  inv self ->
  forall self1 k s dir,
    resolve_flow self p = (self1, k, s, dir) ->
    inv self1 /\ Dict.get k (_flows self1) = Some s
    /\ flow_timeout self1 = flow_timeout self.
Proof.
  intros Hinv self1 k s dir Hres.
  pose proof (resolve_flow_cases self p) as Hc. cbv zeta in Hc.
  destruct (Dict.get (_create_flow_key p) (_flows self)) eqn:E1.
  - rewrite Hc in Hres. inversion Hres; subst. auto.
  - destruct (Dict.get (FlowKey.reverse (_create_flow_key p)) (_flows self))
      eqn:E2.
    + rewrite Hc in Hres. inversion Hres; subst. auto.
    + rewrite Hc in Hres. inversion Hres; subst. split; [|split].
      * now apply inv_create.
      * cbn [_flows]. now apply get_app_new.
      * reflexivity.
Qed.

Lemma get_without_same (k : FlowKey.t) (d : Dict.t) :
  Dict.get k (without k d) = None.
Proof.
  apply get_None_notin. unfold without, Dict.keys. intros H.
  apply in_map_iff in H. destruct H as [[k' v] [Hfst Hin]].
  apply filter_In in Hin. destruct Hin as [_ Hneq]. cbn [fst] in *. subst k'.
  rewrite FlowKey_eqb_refl in Hneq. discriminate.
Qed.

Lemma stale_fresh_length (self : FeatureExtractor) (now : Q) (d : Dict.t) :
  (List.length (filter (stale self now) d)
   + List.length (filter (fresh_entry self now) d) = List.length d)%nat.
Proof.
  unfold fresh_entry. induction d as [|kv d IH]; [reflexivity|].
  simpl. destruct (stale self now kv); simpl; lia.
Qed.

Lemma extracted_length (fsqrt : Q -> Q) (d : Dict.t) (feats : list FlowFeatures.t) :
  extracted fsqrt (Dict.values d) feats -> List.length feats = List.length d.
Proof.
  intros H. apply Forall2_length in H. unfold Dict.values in H.
  now rewrite length_map in H.
Qed.

Section Ingest.

Variable fsqrt : Q -> Q.

Lemma _cleanup_stale_flows_inv (self : FeatureExtractor) (now : Q) :
  inv self ->
  exists self' feats,
    _cleanup_stale_flows fsqrt self now = Ok (self', feats)
    /\ inv self'
    /\ _flows self' = filter (fresh_entry self now) (_flows self)
    /\ flow_timeout self' = flow_timeout self.
Proof.
  intros Hinv. pose proof Hinv as (Hok & _).
  destruct (_cleanup_stale_flows_spec fsqrt self now Hok)
    as [feats [Hext [_ Hrun]]].
  eexists. exists feats. split; [exact Hrun|].
  split; [|split; reflexivity].
  apply inv_shrink; [exact Hinv|].
  rewrite (extracted_length _ _ _ Hext). apply stale_fresh_length.
Qed.

Lemma finalize_all_flows_inv (self : FeatureExtractor) :
  inv self ->
  exists self' feats,
    finalize_all_flows fsqrt self = Ok (self', feats) /\ inv self'.
Proof.
  intros (Hok & Hkey & Hsin & Hiat & Hcnt). unfold finalize_all_flows.
  destruct (extract_all_total fsqrt (Dict.values (_flows self)))
    as [feats [Hrun _]].
  rewrite Hrun. cbn [bind]. eexists. exists feats. split; [reflexivity|].
  unfold inv, Dict.ok, keyed, single, iat_ok, counted in *.
  cbn [_flows set_flows set_total_flows_completed _total_flows_created
       _total_flows_completed Dict.keys map List.length].
  repeat split; try constructor.
  - intros k [].
  - rewrite Hcnt. lia.
Qed.

(** What one call of [process_packet] does to the accumulator of the
    packet's conversation: the check after the update compares the timeout
    with zero, so the updated accumulator is emitted and removed when the
    timeout is not positive, and stays in the table otherwise. *)
Lemma process_packet_spec (self : FeatureExtractor) (p : PacketInfo.t)
    (now now' : Q) :
  inv self ->
  forall self1 k s dir,
    resolve_flow self p = (self1, k, s, dir) ->
    exists self' r,
      process_packet fsqrt self p now now' = Ok (self', r)
      /\ inv self'
      /\ flow_timeout self' = flow_timeout self
      /\ ((Qle_bool (flow_timeout self) 0 = true
           /\ Dict.get k (_flows self') = None
           /\ exists f,
                _extract_features fsqrt (_update_flow_stats s p dir) = Ok f
                /\ r = Some f)
          \/ (Qle_bool (flow_timeout self) 0 = false
              /\ Dict.get k (_flows self')
                 = Some (_update_flow_stats s p dir))).
Proof.
  intros Hinv self1 k s dir Hres.
  destruct (resolve_flow_inv self p Hinv _ _ _ _ Hres) as (Hinv1 & Hget & Hft).
  pose proof (inv_update self1 k s p dir Hinv1 Hget) as Hinv2.
  set (s' := _update_flow_stats s p dir) in *.
  set (self2 := set_flows (Dict.set k s' (_flows self1)) self1) in *.
  assert (Hft2 : flow_timeout self2 = flow_timeout self) by exact Hft.
  assert (Hget2 : Dict.get k (_flows self2) = Some s') by apply get_set_same.
  assert (Hkey : FlowStats.flow_key s' = k).
  { destruct Hinv2 as (_ & Hkeyed & _). unfold keyed in Hkeyed.
    rewrite Forall_forall in Hkeyed.
    exact (Hkeyed _ (get_Some_In _ _ _ Hget2)). }
  unfold process_packet. rewrite Hres. fold s'. fold self2.
  unfold s' at 1. rewrite complete_after_update. rewrite Hft2.
  destruct (Qle_bool (flow_timeout self) 0) eqn:Hto.
  - destruct (_extract_features_total fsqrt s') as [f Hf]. rewrite Hf.
    cbn [bind]. rewrite Hkey.
    destruct Hinv2 as (Hok2 & Hrest).
    assert (Hin : In k (Dict.keys (_flows self2)))
      by (eapply get_Some_key; eauto).
    rewrite (del_present k (_flows self2) Hok2 Hin). cbn [bind].
    eexists. eexists. split; [reflexivity|]. split.
    + apply (inv_shrink self2 (fun kv => negb (FlowKey.eqb k (fst kv))) 1).
      * split; assumption.
      * pose proof (length_without k (_flows self2) Hok2 Hin) as Hl.
        unfold without in Hl. lia.
    + split; [exact Hft2|].
      left. split; [reflexivity|]. split.
      * apply get_without_same.
      * exists f. split; reflexivity.
  - destruct (negb (Qle_bool (now - _last_cleanup self2) (cleanup_interval self2))).
    + destruct (_cleanup_stale_flows_inv self2 (PacketInfo.timestamp p) Hinv2)
        as (self3 & feats & Hrun & Hinv3 & Hflows & Hft3).
      rewrite Hrun. cbn [bind].
      exists (set_last_cleanup now' self3).
      exists (match feats with f :: _ => Some f | [] => None end).
      split; [destruct feats; reflexivity|].
      split; [now apply inv_last_cleanup|].
      split; [destruct self3; cbn in *; congruence|].
      right. split; [reflexivity|].
      replace (_flows (set_last_cleanup now' self3)) with (_flows self3)
        by (destruct self3; reflexivity).
      rewrite Hflows. apply In_get_Some.
      * apply ok_filter. apply Hinv2.
      * apply filter_In. split; [now apply get_Some_In|].
        unfold fresh_entry, stale. cbn [snd]. unfold s'.
        rewrite complete_after_update. rewrite Hft2. now rewrite Hto.
    + exists self2, None. split; [reflexivity|]. split; [exact Hinv2|].
      split; [exact Hft2|].
      right. split; [reflexivity | exact Hget2].
Qed.

Lemma process_packet_inv (self : FeatureExtractor) (p : PacketInfo.t)
    (now now' : Q) :
  inv self ->
  exists self' r, process_packet fsqrt self p now now' = Ok (self', r) /\ inv self'.
Proof.
  intros Hinv. destruct (resolve_flow self p) as [[[self1 k] s] dir] eqn:Hres.
  destruct (process_packet_spec self p now now' Hinv _ _ _ _ Hres)
    as (self' & r & Hrun & Hinv' & _).
  eauto.
Qed.

Lemma step_inv (self : FeatureExtractor) (c : call) :
  inv self -> exists self', step fsqrt self c = Ok self' /\ inv self'.
Proof.
  intros Hinv. destruct c as [p now now' | t | ]; unfold step.
  - destruct (process_packet_inv self p now now' Hinv) as (self' & r & H & Hi).
    rewrite H. cbn [bind]. eauto.
  - destruct (_cleanup_stale_flows_inv self t Hinv) as (self' & r & H & Hi & _).
    rewrite H. cbn [bind]. eauto.
  - destruct (finalize_all_flows_inv self Hinv) as (self' & r & H & Hi).
    rewrite H. cbn [bind]. eauto.
Qed.

Lemma run_inv (cs : list call) :
  forall self, inv self -> exists self', run fsqrt self cs = Ok self' /\ inv self'.
Proof.
  induction cs as [|c cs IH]; intros self Hinv; simpl.
  - eauto.
  - destruct (step_inv self c Hinv) as (self1 & H & Hi). rewrite H.
    cbn [bind]. now apply IH.
Qed.

End Ingest.

(** ** Reachable states *)

Lemma reachable_inv (fsqrt : Q -> Q) (flow_timeout cleanup_interval t0 : Q)
    (cs : list call) :
  exists self,
    run fsqrt (__init__ flow_timeout cleanup_interval t0) cs = Ok self
    /\ inv self.
Proof. apply run_inv. apply inv_init. Qed.

Lemma reached_inv (fsqrt : Q -> Q) (flow_timeout cleanup_interval t0 : Q)
    (cs : list call) (self : FeatureExtractor) :
  run fsqrt (__init__ flow_timeout cleanup_interval t0) cs = Ok self -> inv self.
Proof.
  intros H.
  destruct (reachable_inv fsqrt flow_timeout cleanup_interval t0 cs)
    as (self' & H' & Hinv).
  congruence.
Qed.

(** A packet of a conversation that has an accumulator resolves to it:
    forward under the accumulator's key, backward under the reverse key when
    the two differ. *)
Lemma resolve_present (self : FeatureExtractor) (k : FlowKey.t)
    (s : FlowStats.t) (p : PacketInfo.t) :
  inv self -> Dict.get k (_flows self) = Some s ->
  (_create_flow_key p = k -> resolve_flow self p = (self, k, s, true))
  /\ (_create_flow_key p = FlowKey.reverse k -> FlowKey.reverse k <> k ->
      resolve_flow self p = (self, k, s, false)).
Proof.
  intros (Hok & Hkey & Hsin & _) Hget.
  pose proof (resolve_flow_cases self p) as Hc. cbv zeta in Hc. split.
  - intros E. rewrite E in Hc. now rewrite Hget in Hc.
  - intros E Hne. rewrite E, reverse_involutive, Hget in Hc.
    destruct (Dict.get (FlowKey.reverse k) (_flows self)) eqn:E2; [|exact Hc].
    exfalso. apply Hne. apply Hsin; eapply get_Some_key; eauto.
Qed.

(** The key [resolve_flow] returns is the packet's key or its reverse. *)
Lemma resolve_flow_key (self : FeatureExtractor) (p : PacketInfo.t)
    (self1 : FeatureExtractor) (k : FlowKey.t) (s : FlowStats.t) (dir : bool) :
  resolve_flow self p = (self1, k, s, dir) ->
  k = _create_flow_key p \/ k = FlowKey.reverse (_create_flow_key p).
Proof.
  intros Hres. pose proof (resolve_flow_cases self p) as Hc. cbv zeta in Hc.
  destruct (Dict.get (_create_flow_key p) (_flows self)).
  - rewrite Hc in Hres. inversion Hres. now left.
  - destruct (Dict.get (FlowKey.reverse (_create_flow_key p)) (_flows self));
      rewrite Hc in Hres; inversion Hres; auto.
Qed.

(** C2. After every sequence of calls the table has no key twice, a key and
    its reverse are both in the table only when they are the same key, and
    once a packet [p] has been resolved, every packet [q] whose key is the
    key of [p] or its reverse resolves to the accumulator of [p] at the key
    it is stored under, creating nothing. *)
Theorem single_accumulator_per_conversation (fsqrt : Q -> Q)
    (flow_timeout cleanup_interval t0 : Q) (cs : list call) :
  exists self,
    run fsqrt (__init__ flow_timeout cleanup_interval t0) cs = Ok self
    /\ NoDup (Dict.keys (_flows self))
    /\ (forall k, In k (Dict.keys (_flows self)) ->
                  In (FlowKey.reverse k) (Dict.keys (_flows self)) ->
                  FlowKey.reverse k = k)
    /\ (forall p q self1 k1 s1 dir1,
          _create_flow_key q = _create_flow_key p
          \/ _create_flow_key q = FlowKey.reverse (_create_flow_key p) ->
          resolve_flow self p = (self1, k1, s1, dir1) ->
          Dict.get k1 (_flows self1) = Some s1
          /\ resolve_flow self1 q
             = (self1, k1, s1, FlowKey.eqb (_create_flow_key q) k1)).
Proof.
  destruct (reachable_inv fsqrt flow_timeout cleanup_interval t0 cs)
    as (self & Hrun & Hinv).
  exists self. split; [exact Hrun|]. split; [apply Hinv|].
  split; [apply Hinv|].
  intros p q self1 k1 s1 dir1 Hq Hres.
  destruct (resolve_flow_inv self p Hinv _ _ _ _ Hres) as (Hinv1 & Hget & _).
  split; [exact Hget|].
  destruct (resolve_present self1 k1 s1 q Hinv1 Hget) as [Hfwd Hbwd].
  destruct (FlowKey.eqb (_create_flow_key q) k1) eqn:E.
  - apply FlowKey_eqb_eq in E. auto.
  - apply FlowKey_eqb_neq in E.
    assert (Hrev : _create_flow_key q = FlowKey.reverse k1).
    { destruct (resolve_flow_key _ _ _ _ _ _ Hres) as [Hk|Hk];
        destruct Hq as [Hq|Hq]; subst k1;
        rewrite ?reverse_involutive; congruence. }
    apply Hbwd; [exact Hrev | congruence].
Qed.

(** C7. After every sequence of calls, whatever the order of the packet
    timestamps, every value in the forward and in the backward
    inter-arrival sequence of every accumulator in the table is at least
    zero; the sample stored for a packet is the difference when that is not
    negative, and zero when the difference is negative. *)
Theorem inter_arrival_nonneg (fsqrt : Q -> Q)
    (flow_timeout cleanup_interval t0 : Q) (cs : list call) :
  (exists self,
     run fsqrt (__init__ flow_timeout cleanup_interval t0) cs = Ok self
     /\ forall k s, In (k, s) (_flows self) ->
          Forall (fun x => 0 <= x)%Q (FlowStats.fwd_iat s)
          /\ Forall (fun x => 0 <= x)%Q (FlowStats.bwd_iat s))
  /\ (forall iat, (0 <= iat)%Q -> py_max iat 0 = iat)
  /\ (forall iat, (iat < 0)%Q -> py_max iat 0 = 0%Q).
Proof.
  split; [|split].
  - destruct (reachable_inv fsqrt flow_timeout cleanup_interval t0 cs)
      as (self & Hrun & Hinv).
    exists self. split; [exact Hrun|]. intros k s Hin.
    destruct Hinv as (_ & _ & _ & Hiat & _). unfold iat_ok in Hiat.
    rewrite Forall_forall in Hiat. exact (Hiat _ Hin).
  - intros iat H. unfold py_max. apply Qle_bool_iff in H. now rewrite H.
  - intros iat H. unfold py_max.
    destruct (Qle_bool 0 iat) eqn:E; [|reflexivity].
    apply Qle_bool_iff in E. lra.
Qed.

Lemma inter_arrival_nonneg_witness :
  py_max (3 - 5) 0 = 0%Q
  /\ exists self s,
       run Sample.fsqrt Sample.fresh (Sample.ingest [Sample.C; Sample.A])
       = Ok self
       /\ In (Sample.k, s) (_flows self)
       /\ FlowStats.fwd_iat s = [0%Q]
       /\ Forall (fun x => 0 <= x)%Q (FlowStats.fwd_iat s).
Proof.
  destruct (inter_arrival_nonneg Sample.fsqrt 60 30 0
              (Sample.ingest [Sample.C; Sample.A]))
    as ((self & Hrun & Hall) & _ & Hclamp).
  split; [apply Hclamp; reflexivity|].
  assert (Hself : Ok self
                  = Ok (Sample.state_after (Sample.ingest [Sample.C; Sample.A])))
    by (rewrite <- Hrun; vm_compute; reflexivity).
  inversion Hself as [Hs]. clear Hself.
  assert (Hin : In (Sample.k,
                    _update_flow_stats
                      (_update_flow_stats (FlowStats.new Sample.k 1 1)
                         Sample.C true) Sample.A true)
                  (_flows self)).
  { rewrite Hs. vm_compute. left. reflexivity. }
  eexists. eexists. split; [exact Hrun|]. split; [exact Hin|].
  split; [vm_compute; reflexivity|].
  exact (proj1 (Hall _ _ Hin)).
Defined.

(** C10. After every sequence of [process_packet], [_cleanup_stale_flows]
    and [finalize_all_flows] calls, [get_statistics] reports a number of
    flows created that is the number of active flows plus the number of
    flows completed. *)
Theorem accounting_invariant (fsqrt : Q -> Q)
    (flow_timeout cleanup_interval t0 : Q) (cs : list call) :
  exists self active created completed,
    run fsqrt (__init__ flow_timeout cleanup_interval t0) cs = Ok self
    /\ get_statistics self
       = [ ("active_flows"%string, active);
           ("total_flows_created"%string, created);
           ("total_flows_completed"%string, completed) ]
    /\ active = Z.of_nat (List.length (_flows self))
    /\ created = active + completed.
Proof.
  destruct (reachable_inv fsqrt flow_timeout cleanup_interval t0 cs)
    as (self & Hrun & Hinv).
  exists self. do 3 eexists. split; [exact Hrun|].
  split; [reflexivity|]. split; [reflexivity|]. apply Hinv.
Qed.

(** ** Direction accounting *)

(** With a positive timeout, a run of packets of one conversation leaves its
    accumulator in the table, the packets with the accumulator's key
    appended forward and those with the reverse key appended backward, each
    in arrival order. *)
Lemma conversation_run (fsqrt : Q -> Q) (k : FlowKey.t) (cs : list call) :
  FlowKey.reverse k <> k ->
  forall self s,
    inv self -> (0 < flow_timeout self)%Q ->
    Dict.get k (_flows self) = Some s ->
    Forall (of_conversation k) cs ->
    exists self' s',
      run fsqrt self cs = Ok self'
      /\ inv self'
      /\ Dict.get k (_flows self') = Some s'
      /\ FlowStats.fwd_packet_lengths s'
         = FlowStats.fwd_packet_lengths s ++ lengths_with_key k cs
      /\ FlowStats.bwd_packet_lengths s'
         = FlowStats.bwd_packet_lengths s
             ++ lengths_with_key (FlowKey.reverse k) cs
      /\ FlowStats.fwd_packet_count s'
         = FlowStats.fwd_packet_count s
           + Z.of_nat (List.length (lengths_with_key k cs))
      /\ FlowStats.bwd_packet_count s'
         = FlowStats.bwd_packet_count s
           + Z.of_nat (List.length (lengths_with_key (FlowKey.reverse k) cs)).
Proof.
  intros Hne. induction cs as [|c cs IH]; intros self s Hinv Hpos Hget Hall.
  - exists self, s. simpl. rewrite !app_nil_r, !Z.add_0_r.
    split; [reflexivity|]. split; [exact Hinv|]. repeat split; auto.
  - inversion Hall as [|? ? Hc Hall']; subst.
    destruct c as [p now now' | t | ]; simpl in Hc; try contradiction.
    destruct (resolve_present self k s p Hinv Hget) as [Hfwd Hbwd].
    assert (Hstep : exists dir,
               resolve_flow self p = (self, k, s, dir)
               /\ dir = FlowKey.eqb (_create_flow_key p) k
               /\ negb dir = FlowKey.eqb (_create_flow_key p) (FlowKey.reverse k)).
    { destruct Hc as [E|E].
      - exists true. split; [auto|]. rewrite E, FlowKey_eqb_refl. split; auto.
        symmetry. apply FlowKey_eqb_neq. congruence.
      - exists false. split; [auto|]. rewrite E, FlowKey_eqb_refl. split; auto.
        symmetry. now apply FlowKey_eqb_neq. }
    destruct Hstep as (dir & Hres & Hdir & Hndir).
    destruct (process_packet_spec fsqrt self p now now' Hinv _ _ _ _ Hres)
      as (self1 & r & Hpp & Hinv1 & Hft1 & Hcase).
    destruct Hcase as [(Hle & _) | (_ & Hget1)].
    { apply Qle_bool_iff in Hle. lra. }
    rewrite <- Hft1 in Hpos.
    destruct (IH self1 _ Hinv1 Hpos Hget1 Hall')
      as (self' & s' & Hrun & Hinv' & Hget' & Hfl & Hbl & Hfc & Hbc).
    exists self', s'. cbn [run step]. rewrite Hpp. cbn [bind].
    split; [exact Hrun|]. split; [exact Hinv'|]. split; [exact Hget'|].
    cbn [lengths_with_key]. rewrite <- Hdir, <- Hndir.
    rewrite Hfl, Hbl, Hfc, Hbc. clear - Hdir.
    destruct dir; cbn [negb].
    + destruct (update_forward s p) as (H1 & H2 & H3 & H4).
      rewrite H1, H2, H3, H4, <- app_assoc, length_cons. simpl app.
      repeat split; lia.
    + destruct (update_backward s p) as (H1 & H2 & H3 & H4).
      rewrite H1, H2, H3, H4, <- app_assoc, length_cons. simpl app.
      repeat split; lia.
Qed.

(** A conversation between one endpoint and itself: the key of the second
    packet is the reverse of the key of the first, and the second packet is
    counted forward, the backward counter staying at zero. *)
Lemma self_reverse_counted_forward :
  _create_flow_key (Sample.L 1)
  = FlowKey.reverse (_create_flow_key (Sample.L 0))
  /\ exists self s,
       run Sample.fsqrt Sample.fresh (Sample.ingest [Sample.L 0; Sample.L 1])
       = Ok self
       /\ Dict.get (_create_flow_key (Sample.L 0)) (_flows self) = Some s
       /\ List.length (_flows self) = 1%nat
       /\ FlowStats.fwd_packet_count s = 2
       /\ FlowStats.fwd_packet_lengths s = [84; 84]
       /\ FlowStats.bwd_packet_count s = 0
       /\ FlowStats.bwd_packet_lengths s = [].
Proof.
  split; [reflexivity|].
  eexists. eexists. split; [vm_compute; reflexivity|].
  split; [vm_compute; reflexivity|]. repeat split.
Qed.

(** C3, amended. In every state reached by a sequence of calls: a packet of
    a conversation without accumulator creates one stored under the packet's
    own key and is resolved forward; an accumulator is stored under its own
    [flow_key]; while the accumulator stored under [k] is in the table, a
    packet with key [k] is counted forward and a packet with key
    [reverse k], when [reverse k] differs from [k], is counted backward,
    and the accumulator so updated is the one the table keeps or the one
    whose features the call returns.  With a positive timeout, a first
    packet with key [k] followed by packets with keys [k] and [reverse k]
    in any order leaves one accumulator under [k] whose forward lengths are
    those of the packets with key [k] and whose backward lengths are those
    of the packets with key [reverse k], in arrival order, with the two
    counters equal to the numbers of those packets. *)
Theorem direction_accounting (fsqrt : Q -> Q)
    (timeout interval t0 : Q) (cs : list call)
    (self : FeatureExtractor) (p : PacketInfo.t) (now now' : Q) :
  run fsqrt (__init__ timeout interval t0) cs = Ok self ->
  (Dict.get (_create_flow_key p) (_flows self) = None ->
   Dict.get (FlowKey.reverse (_create_flow_key p)) (_flows self) = None ->
   exists self1,
     resolve_flow self p
     = (self1, _create_flow_key p,
        FlowStats.new (_create_flow_key p) (PacketInfo.timestamp p)
          (PacketInfo.timestamp p), true)
     /\ Dict.get (_create_flow_key p) (_flows self1)
        = Some (FlowStats.new (_create_flow_key p) (PacketInfo.timestamp p)
                  (PacketInfo.timestamp p)))
  /\ (forall k s,
       Dict.get k (_flows self) = Some s ->
       FlowStats.flow_key s = k
       /\ exists self' r,
            process_packet fsqrt self p now now' = Ok (self', r)
            /\ (_create_flow_key p = k ->
                resolve_flow self p = (self, k, s, true)
                /\ counted_forward s (_update_flow_stats s p true) p
                /\ kept_or_emitted fsqrt self' r k
                     (_update_flow_stats s p true))
            /\ (_create_flow_key p = FlowKey.reverse k ->
                FlowKey.reverse k <> k ->
                resolve_flow self p = (self, k, s, false)
                /\ counted_backward s (_update_flow_stats s p false) p
                /\ kept_or_emitted fsqrt self' r k
                     (_update_flow_stats s p false)))
  /\ ((0 < flow_timeout self)%Q ->
      FlowKey.reverse (_create_flow_key p) <> _create_flow_key p ->
      Dict.get (_create_flow_key p) (_flows self) = None ->
      Dict.get (FlowKey.reverse (_create_flow_key p)) (_flows self) = None ->
      forall ps,
        Forall (of_conversation (_create_flow_key p)) ps ->
        exists self' s',
          run fsqrt self (ProcessPacket p now now' :: ps) = Ok self'
          /\ Dict.get (_create_flow_key p) (_flows self') = Some s'
          /\ FlowStats.flow_key s' = _create_flow_key p
          /\ FlowStats.fwd_packet_lengths s'
             = PacketInfo.length p :: lengths_with_key (_create_flow_key p) ps
          /\ FlowStats.bwd_packet_lengths s'
             = lengths_with_key (FlowKey.reverse (_create_flow_key p)) ps
          /\ FlowStats.fwd_packet_count s'
             = Z.of_nat (List.length (FlowStats.fwd_packet_lengths s'))
          /\ FlowStats.bwd_packet_count s'
             = Z.of_nat (List.length (FlowStats.bwd_packet_lengths s'))).
Proof.
  intros Hrun. pose proof (reached_inv _ _ _ _ _ _ Hrun) as Hinv.
  split; [|split].
  - intros H1 H2. pose proof (resolve_flow_cases self p) as Hc.
    cbv zeta in Hc. rewrite H1, H2 in Hc. eexists. split; [exact Hc|].
    cbn [_flows]. now apply get_app_new.
  - intros k s Hget. split.
    { destruct Hinv as (_ & Hkey & _). unfold keyed in Hkey.
      rewrite Forall_forall in Hkey.
      exact (Hkey _ (get_Some_In _ _ _ Hget)). }
    destruct (resolve_present self k s p Hinv Hget) as [Hfwd Hbwd].
    destruct (process_packet_inv fsqrt self p now now' Hinv)
      as (self' & r & Hpp & _).
    exists self', r. split; [exact Hpp|].
    assert (Hkept : forall dir,
               resolve_flow self p = (self, k, s, dir) ->
               kept_or_emitted fsqrt self' r k (_update_flow_stats s p dir)).
    { intros dir Hres.
      destruct (process_packet_spec fsqrt self p now now' Hinv _ _ _ _ Hres)
        as (self2 & r2 & Hpp2 & _ & _ & Hcase).
      rewrite Hpp in Hpp2. inversion Hpp2; subst self2 r2.
      unfold kept_or_emitted.
      destruct Hcase as [(_ & Hnone & Hf) | (_ & Hsome)]; auto. }
    split.
    + intros E. split; [auto|]. split; [apply update_forward | auto].
    + intros E Hne. split; [auto|]. split; [apply update_backward | auto].
  - intros Hpos Hne H1 H2 ps Hps.
    pose proof (resolve_flow_cases self p) as Hc. cbv zeta in Hc.
    rewrite H1, H2 in Hc.
    destruct (process_packet_spec fsqrt self p now now' Hinv _ _ _ _ Hc)
      as (self1 & r & Hpp & Hinv1 & Hft1 & Hcase).
    destruct Hcase as [(Hle & _) | (_ & Hget1)].
    { apply Qle_bool_iff in Hle. lra. }
    rewrite <- Hft1 in Hpos.
    destruct (conversation_run fsqrt _ ps Hne self1 _ Hinv1 Hpos Hget1 Hps)
      as (self' & s' & Hrun' & Hinv' & Hget' & Hfl & Hbl & Hfc & Hbc).
    exists self', s'. cbn [run step]. rewrite Hpp. cbn [bind].
    split; [exact Hrun'|]. split; [exact Hget'|]. split.
    { destruct Hinv' as (_ & Hkey & _). unfold keyed in Hkey.
      rewrite Forall_forall in Hkey.
      exact (Hkey _ (get_Some_In _ _ _ Hget')). }
    rewrite Hfc, Hbc, Hfl, Hbl.
    destruct (update_forward
                (FlowStats.new (_create_flow_key p) (PacketInfo.timestamp p)
                   (PacketInfo.timestamp p)) p) as (U1 & U2 & U3 & U4).
    rewrite U1, U2, U3, U4. cbn [FlowStats.new FlowStats.fwd_packet_lengths
      FlowStats.bwd_packet_lengths FlowStats.fwd_packet_count
      FlowStats.bwd_packet_count app].
    rewrite length_cons. repeat split; lia.
Qed.

Lemma direction_accounting_witness :
  exists self' r,
    process_packet Sample.fsqrt (Sample.state_after (Sample.ingest [Sample.A]))
      Sample.B 0 0 = Ok (self', r)
    /\ (exists s',
          Dict.get Sample.k (_flows self') = Some s'
          /\ FlowStats.bwd_packet_count s' = 1
          /\ FlowStats.fwd_packet_count s' = 1)
    /\ exists self'' s'',
         run Sample.fsqrt Sample.fresh
           (Sample.ingest [Sample.A; Sample.B; Sample.C]) = Ok self''
         /\ Dict.get Sample.k (_flows self'') = Some s''
         /\ FlowStats.fwd_packet_lengths s'' = [100; 150]
         /\ FlowStats.bwd_packet_lengths s'' = [200].
Proof.
  assert (Hrun : run Sample.fsqrt (__init__ 60 30 0) (Sample.ingest [Sample.A])
                 = Ok (Sample.state_after (Sample.ingest [Sample.A])))
    by (vm_compute; reflexivity).
  destruct (direction_accounting Sample.fsqrt 60 30 0 (Sample.ingest [Sample.A])
              (Sample.state_after (Sample.ingest [Sample.A])) Sample.B 0 0 Hrun)
    as (_ & Hacc & _).
  assert (Hget : Dict.get Sample.k
                   (_flows (Sample.state_after (Sample.ingest [Sample.A])))
                 = Some (_update_flow_stats
                           (FlowStats.new Sample.k 0 0) Sample.A true))
    by (vm_compute; reflexivity).
  destruct (Hacc _ _ Hget) as (_ & self' & r & Hpp & _ & Hbwd).
  assert (Hrev : _create_flow_key Sample.B = FlowKey.reverse Sample.k)
    by reflexivity.
  assert (Hne : FlowKey.reverse Sample.k <> Sample.k) by discriminate.
  destruct (Hbwd Hrev Hne) as (_ & (Hc & _ & Hf & _) & Hkept).
  exists self', r. split; [exact Hpp|]. split.
  - destruct Hkept as [Hk | (Hnone & _)].
    + eexists. split; [exact Hk|]. split; [exact Hc | exact Hf].
    + exfalso. clear - Hnone Hpp.
      vm_compute in Hpp. inversion Hpp; subst. vm_compute in Hnone.
      discriminate.
  - assert (Hrun0 : run Sample.fsqrt (__init__ 60 30 0) [] = Ok Sample.fresh)
      by reflexivity.
    destruct (direction_accounting Sample.fsqrt 60 30 0 [] Sample.fresh
                Sample.A 0 0 Hrun0) as (_ & _ & Hconv).
    assert (Hpos : (0 < flow_timeout Sample.fresh)%Q) by reflexivity.
    assert (Hne' : FlowKey.reverse (_create_flow_key Sample.A)
                   <> _create_flow_key Sample.A) by discriminate.
    assert (Hps : Forall (of_conversation (_create_flow_key Sample.A))
                    (Sample.ingest [Sample.B; Sample.C])).
    { constructor; [right; reflexivity|].
      constructor; [left; reflexivity | constructor]. }
    destruct (Hconv Hpos Hne' eq_refl eq_refl _ Hps)
      as (self'' & s'' & Hrun'' & Hget'' & _ & Hfl & Hbl & _).
    exists self'', s''. split; [exact Hrun''|]. split; [exact Hget''|].
    split; [exact Hfl | exact Hbl].
Defined.

(** ** Removal *)


(** ** Timeout finalization *)

(** With a positive timeout, [process_packet] never removes the accumulator
    of the packet it is given, however long the conversation was silent. *)
Lemma positive_timeout_keeps_flow (fsqrt : Q -> Q) (self : FeatureExtractor)
    (p : PacketInfo.t) (now now' : Q) :
  inv self -> (0 < flow_timeout self)%Q ->
  forall self1 k s dir,
    resolve_flow self p = (self1, k, s, dir) ->
    exists self' r,
      process_packet fsqrt self p now now' = Ok (self', r)
      /\ Dict.get k (_flows self') = Some (_update_flow_stats s p dir).
Proof.
  intros Hinv Hpos self1 k s dir Hres.
  destruct (process_packet_spec fsqrt self p now now' Hinv _ _ _ _ Hres)
    as (self' & r & Hpp & _ & _ & Hcase).
  exists self', r. split; [exact Hpp|].
  destruct Hcase as [(Hle & _) | (_ & Hsome)]; [|exact Hsome].
  apply Qle_bool_iff in Hle. lra.
Qed.

(** C1, the code at the end-to-end timeout example.  With
    [flow_timeout = 60], after packets A, B and C the flow was last seen at
    time 1; packet D of the same conversation arrives at time 65, so
    [65 - 1 >= 60].  [process_packet] returns [None] and the flow stays in
    the table with D counted, whether the periodic sweep is due (clock at
    100) or not (clock at 0). *)
Theorem late_packet_does_not_finalize :
  exists self s,
    run Sample.fsqrt Sample.fresh (Sample.ingest [Sample.A; Sample.B; Sample.C])
    = Ok self
    /\ Dict.get Sample.k (_flows self) = Some s
    /\ FlowStats.last_timestamp s = 1%Q
    /\ _create_flow_key Sample.D = Sample.k
    /\ (flow_timeout self
        <= PacketInfo.timestamp Sample.D - FlowStats.last_timestamp s)%Q
    /\ process_packet Sample.fsqrt self Sample.D 0 0
       = Ok (set_flows [(Sample.k, _update_flow_stats s Sample.D true)] self,
             None)
    /\ process_packet Sample.fsqrt self Sample.D 100 100
       = Ok (set_last_cleanup 100
               (set_flows [(Sample.k, _update_flow_stats s Sample.D true)] self),
             None)
    /\ FlowStats.fwd_packet_count (_update_flow_stats s Sample.D true) = 3.
Proof.
  eexists. eexists. split; [vm_compute; reflexivity|].
  split; [vm_compute; reflexivity|].
  split; [reflexivity|]. split; [reflexivity|].
  split; [vm_compute; discriminate|].
  split; [vm_compute; reflexivity|].
  split; [vm_compute; reflexivity|]. reflexivity.
Qed.

(** * Further properties of the extractor *)

(** ** How [process_packet] composes *)

Lemma resolve_flow_config (self : FeatureExtractor) (p : PacketInfo.t)
    (self1 : FeatureExtractor) (k : FlowKey.t) (s : FlowStats.t) (dir : bool) :
  resolve_flow self p = (self1, k, s, dir) ->
  flow_timeout self1 = flow_timeout self
  /\ cleanup_interval self1 = cleanup_interval self
  /\ _last_cleanup self1 = _last_cleanup self
  /\ _total_flows_completed self1 = _total_flows_completed self.
Proof.
  intros Hres. pose proof (resolve_flow_cases self p) as Hc. cbv zeta in Hc.
  destruct (Dict.get (_create_flow_key p) (_flows self)).
  - rewrite Hc in Hres. inversion Hres; subst. auto.
  - destruct (Dict.get (FlowKey.reverse (_create_flow_key p)) (_flows self));
      rewrite Hc in Hres; inversion Hres; subst; auto.
Qed.

(** The three ways a call of [process_packet] ends, with the state and the
    value returned in each. *)
Lemma process_packet_cases (fsqrt : Q -> Q) (self : FeatureExtractor)
    (p : PacketInfo.t) (now now' : Q) :
  inv self ->
  forall self1 k s dir,
    resolve_flow self p = (self1, k, s, dir) ->
    let s' := _update_flow_stats s p dir in
    let self2 := set_flows (Dict.set k s' (_flows self1)) self1 in
    (Qle_bool (flow_timeout self) 0 = true
     /\ exists f,
          _extract_features fsqrt s' = Ok f
          /\ process_packet fsqrt self p now now'
             = Ok (set_total_flows_completed (_total_flows_completed self2 + 1)
                     (set_flows (without k (_flows self2)) self2),
                   Some f))
    \/ (Qle_bool (flow_timeout self) 0 = false
        /\ Qle_bool (now - _last_cleanup self) (cleanup_interval self) = true
        /\ process_packet fsqrt self p now now' = Ok (self2, None))
    \/ (Qle_bool (flow_timeout self) 0 = false
        /\ Qle_bool (now - _last_cleanup self) (cleanup_interval self) = false
        /\ exists self3 feats,
             _cleanup_stale_flows fsqrt self2 (PacketInfo.timestamp p)
             = Ok (self3, feats)
             /\ process_packet fsqrt self p now now'
                = Ok (set_last_cleanup now' self3, hd_error feats)).
Proof.
  intros Hinv self1 k s dir Hres s' self2.
  destruct (resolve_flow_inv self p Hinv _ _ _ _ Hres) as (Hinv1 & Hget & _).
  destruct (resolve_flow_config _ _ _ _ _ _ Hres) as (Hft & Hci & Hlc & _).
  pose proof (inv_update self1 k s p dir Hinv1 Hget) as Hinv2.
  fold s' in Hinv2. fold self2 in Hinv2.
  assert (Hget2 : Dict.get k (_flows self2) = Some s') by apply get_set_same.
  assert (Hkey : FlowStats.flow_key s' = k).
  { destruct Hinv2 as (_ & Hkeyed & _). unfold keyed in Hkeyed.
    rewrite Forall_forall in Hkeyed.
    exact (Hkeyed _ (get_Some_In _ _ _ Hget2)). }
  assert (Hft2 : flow_timeout self2 = flow_timeout self) by exact Hft.
  assert (Hci2 : cleanup_interval self2 = cleanup_interval self) by exact Hci.
  assert (Hlc2 : _last_cleanup self2 = _last_cleanup self) by exact Hlc.
  assert (Hcomp : _is_flow_complete self2 s' (PacketInfo.timestamp p)
                  = Qle_bool (flow_timeout self) 0).
  { unfold s'. rewrite complete_after_update. now rewrite Hft2. }
  unfold process_packet. rewrite Hres. fold s'. fold self2.
  rewrite Hcomp, Hlc2, Hci2.
  destruct (Qle_bool (flow_timeout self) 0) eqn:Hto.
  - left. split; [reflexivity|].
    destruct (_extract_features_total fsqrt s') as [f Hf].
    exists f. split; [exact Hf|]. fold s'. rewrite Hf. cbn [bind]. rewrite Hkey.
    destruct Hinv2 as (Hok2 & _).
    rewrite (del_present k (_flows self2) Hok2 (get_Some_key _ _ _ Hget2)).
    reflexivity.
  - right.
    destruct (Qle_bool (now - _last_cleanup self) (cleanup_interval self)) eqn:Hdue.
    + left. auto.
    + right. split; [reflexivity|]. split; [reflexivity|]. cbn [negb].
      destruct (_cleanup_stale_flows_inv fsqrt self2 (PacketInfo.timestamp p)
                  Hinv2) as (self3 & feats & Hrun & _).
      exists self3, feats. split; [exact Hrun|]. rewrite Hrun. cbn [bind].
      destruct feats; reflexivity.
Qed.

(** ** Properties of accumulators carried along a run *)

Lemma set_app_new (k : FlowKey.t) (v x : FlowStats.t) (d : Dict.t) :
  ~ In k (Dict.keys d) -> Dict.set k v (d ++ [(k, x)]) = d ++ [(k, v)].
Proof.
  induction d as [|[k' v'] d IH]; simpl; intros Hni.
  - now rewrite FlowKey_eqb_refl.
  - destruct (FlowKey.eqb k k') eqn:E.
    + apply FlowKey_eqb_eq in E. subst. exfalso. apply Hni. now left.
    + f_equal. apply IH. intros H. apply Hni. now right.
Qed.

Lemma extracted_Forall (fsqrt : Q -> Q) (P : FlowStats.t -> Prop)
    (R : FlowFeatures.t -> Prop) (values : list FlowStats.t)
    (feats : list FlowFeatures.t) :
  (forall s f, P s -> _extract_features fsqrt s = Ok f -> R f) ->
  extracted fsqrt values feats -> Forall P values -> Forall R feats.
Proof.
  intros HPR Hext. induction Hext as [|s f values feats Hsf Hext IH];
    intros HP; constructor; inversion HP; subst; eauto.
Qed.

Lemma Forall_values (P : FlowStats.t -> Prop) (d : Dict.t) :
  Forall (fun kv => P (snd kv)) d -> Forall P (Dict.values d).
Proof. unfold Dict.values. intros H. now apply Forall_map. Qed.

Lemma finalize_all_flows_spec (fsqrt : Q -> Q) (self : FeatureExtractor) :
  exists feats,
    finalize_all_flows fsqrt self
    = Ok (mkExtractor (flow_timeout self) (cleanup_interval self) []
            (_last_cleanup self) (_total_flows_created self)
            (_total_flows_completed self
             + Z.of_nat (List.length (_flows self))),
          feats)
    /\ extracted fsqrt (Dict.values (_flows self)) feats.
Proof.
  unfold finalize_all_flows.
  destruct (extract_all_total fsqrt (Dict.values (_flows self)))
    as [feats [Hrun Hext]].
  rewrite Hrun. cbn [bind]. exists feats. split; [reflexivity | exact Hext].
Qed.

Section Carried.

Variable fsqrt : Q -> Q.

(** A property of accumulators that every update keeps and that the first
    update of a new accumulator establishes, and a property of feature
    vectors that follows from it. *)
Variable P : FlowStats.t -> Prop.
Variable R : FlowFeatures.t -> Prop.

Hypothesis P_update :
  forall s p dir, P s -> P (_update_flow_stats s p dir).
Hypothesis P_first :
  forall k t p, P (_update_flow_stats (FlowStats.new k t t) p true).
Hypothesis P_features :
  forall s f, P s -> _extract_features fsqrt s = Ok f -> R f.

Let P' (kv : FlowKey.t * FlowStats.t) : Prop := P (snd kv).

Lemma resolved_Forall (self : FeatureExtractor) (p : PacketInfo.t)
    (self1 : FeatureExtractor) (k : FlowKey.t) (s : FlowStats.t) (dir : bool) :
  Forall P' (_flows self) ->
  resolve_flow self p = (self1, k, s, dir) ->
  Forall P' (Dict.set k (_update_flow_stats s p dir) (_flows self1)).
Proof.
  intros HP Hres. pose proof (resolve_flow_cases self p) as Hc. cbv zeta in Hc.
  destruct (Dict.get (_create_flow_key p) (_flows self)) eqn:E1.
  - rewrite Hc in Hres. inversion Hres; subst.
    apply Forall_set; [exact HP|]. unfold P'. cbn [snd]. apply P_update.
    rewrite Forall_forall in HP. exact (HP _ (get_Some_In _ _ _ E1)).
  - destruct (Dict.get (FlowKey.reverse (_create_flow_key p)) (_flows self))
      eqn:E2; rewrite Hc in Hres; inversion Hres; subst.
    + apply Forall_set; [exact HP|]. unfold P'. cbn [snd]. apply P_update.
      rewrite Forall_forall in HP. exact (HP _ (get_Some_In _ _ _ E2)).
    + cbn [_flows]. rewrite set_app_new by (now apply get_None_notin).
      apply Forall_app. split; [exact HP|]. constructor; [|constructor].
      unfold P'. cbn [snd]. apply P_first.
Qed.

Lemma step_out_carried (self : FeatureExtractor) (c : call) :
  inv self -> Forall P' (_flows self) ->
  exists self' out,
    step_out fsqrt self c = Ok (self', out)
    /\ step fsqrt self c = Ok self'
    /\ inv self' /\ Forall P' (_flows self') /\ Forall R out
    /\ Z.of_nat (List.length out)
       <= _total_flows_completed self' - _total_flows_completed self.
Proof.
  intros Hinv HP. destruct c as [p now now' | t | ]; cbn [step_out step].
  - destruct (resolve_flow self p) as [[[self1 k] s] dir] eqn:Hres.
    pose proof (resolved_Forall _ _ _ _ _ _ HP Hres) as HP2.
    destruct (resolve_flow_inv self p Hinv _ _ _ _ Hres) as (Hinv1 & Hget & _).
    destruct (resolve_flow_config _ _ _ _ _ _ Hres) as (_ & _ & _ & Hcomp).
    pose proof (inv_update self1 k s p dir Hinv1 Hget) as Hinv2.
    destruct (process_packet_inv fsqrt self p now now' Hinv)
      as (self' & r & Hpp & Hinv').
    exists self', (match r with Some f => [f] | None => [] end).
    rewrite Hpp. cbn [bind]. split; [reflexivity|]. split; [reflexivity|].
    split; [exact Hinv'|].
    destruct (process_packet_cases fsqrt self p now now' Hinv _ _ _ _ Hres)
      as [(_ & f & Hf & Heq) | [(_ & _ & Heq) | (_ & _ & self3 & feats & Hcl & Heq)]];
      rewrite Hpp in Heq; inversion Heq; subst self' r; clear Heq.
    + cbn [_flows set_flows set_total_flows_completed _total_flows_completed
           List.length].
      split; [now apply Forall_filter|]. split; [|lia].
      constructor; [|constructor]. eapply P_features; [|exact Hf].
      rewrite Forall_forall in HP2.
      exact (HP2 _ (get_Some_In _ _ _ (get_set_same k _ (_flows self1)))).
    + cbn [_flows set_flows _total_flows_completed List.length].
      split; [exact HP2|]. split; [constructor | lia].
    + destruct Hinv2 as (Hok2 & _).
      destruct (_cleanup_stale_flows_spec fsqrt _ (PacketInfo.timestamp p) Hok2)
        as (feats' & Hext & _ & Hcl').
      rewrite Hcl in Hcl'. inversion Hcl'; subst self3 feats'. clear Hcl'.
      cbn [_flows set_flows set_last_cleanup _total_flows_completed].
      split; [now apply Forall_filter|].
      assert (HR : Forall R feats).
      { eapply extracted_Forall; [exact P_features | exact Hext |].
        apply Forall_values. now apply Forall_filter. }
      destruct feats as [|f feats]; cbn [hd_error List.length].
      * split; [constructor | lia].
      * inversion HR; subst. split; [repeat constructor; assumption | lia].
  - pose proof Hinv as (Hok & _).
    destruct (_cleanup_stale_flows_spec fsqrt self t Hok)
      as (feats & Hext & _ & Hcl).
    destruct (_cleanup_stale_flows_inv fsqrt self t Hinv)
      as (self' & feats' & Hcl' & Hinv' & _).
    rewrite Hcl in Hcl'. inversion Hcl'; subst self' feats'. clear Hcl'.
    rewrite Hcl. cbn [bind]. eexists. exists feats.
    split; [reflexivity|]. split; [reflexivity|]. split; [exact Hinv'|].
    cbn [_flows _total_flows_completed].
    split; [now apply Forall_filter|]. split; [|lia].
    eapply extracted_Forall; [exact P_features | exact Hext |].
    apply Forall_values. now apply Forall_filter.
  - destruct (finalize_all_flows_spec fsqrt self) as (feats & Hrun & Hext).
    destruct (finalize_all_flows_inv fsqrt self Hinv)
      as (self' & feats' & Hfin & Hinv').
    rewrite Hrun in Hfin. inversion Hfin; subst self' feats'. clear Hfin.
    rewrite Hrun. cbn [bind]. eexists. exists feats.
    split; [reflexivity|]. split; [reflexivity|]. split; [exact Hinv'|].
    cbn [_flows set_flows set_total_flows_completed _total_flows_completed].
    split; [constructor|]. split.
    + eapply extracted_Forall; [exact P_features | exact Hext |].
      now apply Forall_values.
    + rewrite (extracted_length _ _ _ Hext). lia.
Qed.

End Carried.

Lemma run_out_carried (fsqrt : Q -> Q) (P : FlowStats.t -> Prop)
    (R : FlowFeatures.t -> Prop) :
  (forall s p dir, P s -> P (_update_flow_stats s p dir)) ->
  (forall k t p, P (_update_flow_stats (FlowStats.new k t t) p true)) ->
  (forall s f, P s -> _extract_features fsqrt s = Ok f -> R f) ->
  forall cs self,
    inv self -> Forall (fun kv => P (snd kv)) (_flows self) ->
    exists self' outs,
      run_out fsqrt self cs = Ok (self', outs)
      /\ run fsqrt self cs = Ok self'
      /\ inv self' /\ Forall (fun kv => P (snd kv)) (_flows self')
      /\ Forall R outs
      /\ Z.of_nat (List.length outs)
         <= _total_flows_completed self' - _total_flows_completed self.
Proof.
  intros Hu Hf HR. induction cs as [|c cs IH]; intros self Hinv HP.
  - exists self, []. cbn [run_out run List.length].
    split; [reflexivity|]. split; [reflexivity|]. split; [exact Hinv|].
    split; [exact HP|]. split; [constructor | lia].
  - destruct (step_out_carried fsqrt P R Hu Hf HR self c Hinv HP)
      as (self1 & out & Hso & Hs & Hinv1 & HP1 & HR1 & Hlen1).
    destruct (IH self1 Hinv1 HP1)
      as (self' & outs & Hro & Hr & Hinv' & HP' & HR' & Hlen').
    exists self', (out ++ outs). cbn [run_out run].
    rewrite Hso, Hs. cbn [bind]. rewrite Hro, Hr. cbn [bind].
    split; [reflexivity|]. split; [reflexivity|]. split; [exact Hinv'|].
    split; [exact HP'|]. split; [apply Forall_app; auto|].
    rewrite length_app. lia.
Qed.

(** ** The shape of the accumulators *)

Lemma update_shaped (s : FlowStats.t) (p : PacketInfo.t) (dir : bool) :
  shaped s -> shaped (_update_flow_stats s p dir).
Proof.
  unfold shaped, counts_match, iat_lengths, started.
  intros ((Hf & Hb) & (Hfi & Hbi) & Hst).
  unfold _update_flow_stats.
  destruct dir; cbn [FlowStatsSet.last_timestamp FlowStatsSet.fwd_packet_count
    FlowStatsSet.bwd_packet_count FlowStatsSet.fwd_packet_lengths
    FlowStatsSet.bwd_packet_lengths FlowStats.fwd_packet_lengths
    FlowStats.bwd_packet_lengths FlowStats.fwd_packet_count
    FlowStats.bwd_packet_count FlowStats.fwd_iat FlowStats.bwd_iat
    FlowStats.first_timestamp];
    match goal with
    | |- context [(1 <? ?n)%Z] => destruct (1 <? n)%Z eqn:E
    end;
    [apply Z.ltb_lt in E | apply Z.ltb_ge in E
    |apply Z.ltb_lt in E | apply Z.ltb_ge in E];
    rewrite length_app in E; cbn [List.length] in E;
    destruct (truthy_flags (PacketInfo.flags p));
    try destruct (PacketInfo.flags p);
    cbn; rewrite ?length_app; cbn [List.length]; repeat split; lia.
Qed.

Lemma first_update_shaped (k : FlowKey.t) (t : Q) (p : PacketInfo.t) :
  shaped (_update_flow_stats (FlowStats.new k t t) p true).
Proof.
  unfold shaped, counts_match, iat_lengths, started, _update_flow_stats.
  cbn. destruct (truthy_flags (PacketInfo.flags p));
    try destruct (PacketInfo.flags p); cbn; repeat split; lia.
Qed.

Lemma shaped_sound_features (fsqrt : Q -> Q) (s : FlowStats.t)
    (f : FlowFeatures.t) :
  shaped s -> _extract_features fsqrt s = Ok f -> sound_features f.
Proof.
  unfold shaped, counts_match, started. intros ((Hf & Hb) & _ & Hst).
  unfold _extract_features.
  repeat match goal with
  | |- context [_safe_mean ?xs] =>
      let m := fresh "m" in let Hm := fresh "Hm" in
      destruct (_safe_mean_total xs) as [m Hm]; rewrite Hm; clear Hm; cbn [bind]
  | |- context [_safe_std fsqrt ?xs] =>
      let m := fresh "s" in let Hm := fresh "Hs" in
      destruct (_safe_std_total fsqrt xs) as [m Hm]; rewrite Hm; clear Hm;
      cbn [bind]
  end.
  intros H. inversion H. unfold sound_features. cbn.
  unfold FlowStats.total_packets, FlowStats.duration.
  repeat split; try lia. apply py_max_nonneg.
Qed.

Lemma fresh_carried (P : FlowStats.t -> Prop) (flow_timeout cleanup_interval t0 : Q) :
  Forall (fun kv => P (snd kv)) (_flows (__init__ flow_timeout cleanup_interval t0)).
Proof. constructor. Qed.

Lemma iat_samples_shape (fsqrt : Q -> Q)
    (flow_timeout cleanup_interval t0 : Q) (cs : list call) :
  exists self,
    run fsqrt (__init__ flow_timeout cleanup_interval t0) cs = Ok self
    /\ forall k s, In (k, s) (_flows self) -> shaped s.
Proof.
  destruct (run_out_carried fsqrt shaped sound_features update_shaped
              first_update_shaped (shaped_sound_features fsqrt) cs _
              (inv_init flow_timeout cleanup_interval t0)
              (fresh_carried _ _ _ _))
    as (self & outs & _ & Hrun & _ & HP & _).
  exists self. split; [exact Hrun|]. intros k s Hin.
  rewrite Forall_forall in HP. exact (HP _ Hin).
Qed.

(** X1. After every sequence of calls, in every accumulator of the table
    the forward and backward packet counters are the lengths of the forward
    and backward length sequences, and at least one forward packet has been
    counted. *)
Theorem counters_are_lengths (fsqrt : Q -> Q)
    (flow_timeout cleanup_interval t0 : Q) (cs : list call) :
  exists self,
    run fsqrt (__init__ flow_timeout cleanup_interval t0) cs = Ok self
    /\ forall k s, In (k, s) (_flows self) ->
         FlowStats.fwd_packet_count s
         = Z.of_nat (List.length (FlowStats.fwd_packet_lengths s))
         /\ FlowStats.bwd_packet_count s
            = Z.of_nat (List.length (FlowStats.bwd_packet_lengths s))
         /\ 1 <= FlowStats.fwd_packet_count s
         /\ 1 <= FlowStats.total_packets s.
Proof.
  destruct (run_out_carried fsqrt shaped sound_features update_shaped
              first_update_shaped (shaped_sound_features fsqrt) cs _
              (inv_init flow_timeout cleanup_interval t0)
              (fresh_carried _ _ _ _))
    as (self & outs & _ & Hrun & _ & HP & _).
  exists self. split; [exact Hrun|]. intros k s Hin.
  rewrite Forall_forall in HP. specialize (HP _ Hin). cbn [snd] in HP.
  destruct HP as ((Hf & Hb) & _ & Hst). unfold started in Hst.
  unfold FlowStats.total_packets. repeat split; lia.
Qed.

(** X2. After every sequence of calls, in every accumulator of the table a
    direction that has counted [n] packets holds [n - 1] inter-arrival
    samples, and none when it has counted no packet. *)
Theorem iat_samples_one_less (fsqrt : Q -> Q)
    (flow_timeout cleanup_interval t0 : Q) (cs : list call) :
  exists self,
    run fsqrt (__init__ flow_timeout cleanup_interval t0) cs = Ok self
    /\ forall k s, In (k, s) (_flows self) ->
         List.length (FlowStats.fwd_iat s)
         = (List.length (FlowStats.fwd_packet_lengths s) - 1)%nat
         /\ List.length (FlowStats.bwd_iat s)
            = (List.length (FlowStats.bwd_packet_lengths s) - 1)%nat.
Proof.
  destruct (run_out_carried fsqrt shaped sound_features update_shaped
              first_update_shaped (shaped_sound_features fsqrt) cs _
              (inv_init flow_timeout cleanup_interval t0)
              (fresh_carried _ _ _ _))
    as (self & outs & _ & Hrun & _ & HP & _).
  exists self. split; [exact Hrun|]. intros k s Hin.
  rewrite Forall_forall in HP. specialize (HP _ Hin). cbn [snd] in HP.
  exact (proj1 (proj2 HP)).
Qed.

(** X3. Every feature vector that a sequence of calls hands to its callers
    (by [process_packet], the sweep or the drain) reports at least one
    forward packet, a total that is the sum of the two directions, a
    non-negative duration and the protocol of its flow key. *)
Theorem returned_features_sound (fsqrt : Q -> Q)
    (flow_timeout cleanup_interval t0 : Q) (cs : list call) :
  exists self outs,
    run_out fsqrt (__init__ flow_timeout cleanup_interval t0) cs
    = Ok (self, outs)
    /\ forall f, In f outs ->
         1 <= FlowFeatures.total_fwd_packets f
         /\ 0 <= FlowFeatures.total_bwd_packets f
         /\ FlowFeatures.total_packets f
            = FlowFeatures.total_fwd_packets f
              + FlowFeatures.total_bwd_packets f
         /\ (0 <= FlowFeatures.flow_duration f)%Q
         /\ FlowFeatures.protocol f
            = FlowKey.protocol (FlowFeatures.flow_key f).
Proof.
  destruct (run_out_carried fsqrt shaped sound_features update_shaped
              first_update_shaped (shaped_sound_features fsqrt) cs _
              (inv_init flow_timeout cleanup_interval t0)
              (fresh_carried _ _ _ _))
    as (self & outs & Hrun & _ & _ & _ & HR & _).
  exists self, outs. split; [exact Hrun|]. intros f Hin.
  rewrite Forall_forall in HR. exact (HR _ Hin).
Qed.

(** X4. Along every sequence of calls the number of feature vectors handed
    to the callers never exceeds [total_flows_completed]. *)
Theorem returned_at_most_completed (fsqrt : Q -> Q)
    (flow_timeout cleanup_interval t0 : Q) (cs : list call) :
  exists self outs,
    run_out fsqrt (__init__ flow_timeout cleanup_interval t0) cs
    = Ok (self, outs)
    /\ run fsqrt (__init__ flow_timeout cleanup_interval t0) cs = Ok self
    /\ Z.of_nat (List.length outs) <= _total_flows_completed self.
Proof.
  destruct (run_out_carried fsqrt (fun _ => True) (fun _ => True)
              (fun _ _ _ _ => I) (fun _ _ _ => I) (fun _ _ _ _ => I) cs _
              (inv_init flow_timeout cleanup_interval t0)
              (fresh_carried _ _ _ _))
    as (self & outs & Hro & Hrun & _ & _ & _ & Hlen).
  exists self, outs. split; [exact Hro|]. split; [exact Hrun|].
  cbn in Hlen. lia.
Qed.

(** ** The sweep inside [process_packet] *)

Lemma process_packet_sweep (fsqrt : Q -> Q) (self : FeatureExtractor)
    (p : PacketInfo.t) (now now' : Q)
    (self1 : FeatureExtractor) (k : FlowKey.t) (s : FlowStats.t) (dir : bool) :
  inv self ->
  (0 < flow_timeout self)%Q ->
  resolve_flow self p = (self1, k, s, dir) ->
  let d := Dict.set k (_update_flow_stats s p dir) (_flows self1) in
  let self2 := set_flows d self1 in
  ((now - _last_cleanup self <= cleanup_interval self)%Q ->
   process_packet fsqrt self p now now' = Ok (self2, None))
  /\ ((cleanup_interval self < now - _last_cleanup self)%Q ->
      exists feats,
        extracted fsqrt
          (Dict.values (filter (stale self2 (PacketInfo.timestamp p)) d)) feats
        /\ process_packet fsqrt self p now now'
           = Ok (mkExtractor (flow_timeout self) (cleanup_interval self)
                   (filter (fresh_entry self2 (PacketInfo.timestamp p)) d)
                   now' (_total_flows_created self1)
                   (_total_flows_completed self
                    + Z.of_nat (List.length feats)),
                 hd_error feats)).
Proof.
  intros Hinv Hpos Hres d self2.
  destruct (resolve_flow_inv self p Hinv _ _ _ _ Hres) as (Hinv1 & Hget & _).
  destruct (resolve_flow_config _ _ _ _ _ _ Hres) as (Hft & Hci & Hlc & Hcomp).
  pose proof (inv_update self1 k s p dir Hinv1 Hget) as Hinv2.
  assert (Hto : Qle_bool (flow_timeout self) 0 = false).
  { destruct (Qle_bool (flow_timeout self) 0) eqn:E; [|reflexivity].
    apply Qle_bool_iff in E. lra. }
  destruct (process_packet_cases fsqrt self p now now' Hinv _ _ _ _ Hres)
    as [(Ht & _) | [(_ & Hdue & Heq) | (_ & Hdue & self3 & feats & Hcl & Heq)]].
  - congruence.
  - split; [intros _; exact Heq|]. intros Hlt.
    apply Qle_bool_iff in Hdue. lra.
  - split.
    + intros Hle. apply Qle_bool_iff in Hle. congruence.
    + intros _. destruct Hinv2 as (Hok2 & _).
      destruct (_cleanup_stale_flows_spec fsqrt _ (PacketInfo.timestamp p) Hok2)
        as (feats' & Hext & _ & Hcl').
      rewrite Hcl in Hcl'. inversion Hcl'; subst self3 feats'. clear Hcl'.
      exists feats. split; [exact Hext|]. rewrite Heq.
      cbn [set_last_cleanup flow_timeout cleanup_interval _flows
           _total_flows_created _total_flows_completed set_flows].
      now rewrite Hft, Hci, Hcomp.
Qed.

(** X5. In a reachable state with a positive timeout, [process_packet]
    stores the updated accumulator and then: when the sweep is not due it
    returns [None] and removes nothing; when the sweep is due it removes
    every accumulator that is stale at the packet's timestamp, counts each
    of them completed, records the second clock reading as the time of the
    sweep, and returns the features of the first stale accumulator only. *)
Theorem inline_sweep_returns_first_only (fsqrt : Q -> Q)
    (timeout interval t0 : Q) (cs : list call) (self : FeatureExtractor)
    (p : PacketInfo.t) (now now' : Q)
    (self1 : FeatureExtractor) (k : FlowKey.t) (s : FlowStats.t) (dir : bool) :
  run fsqrt (__init__ timeout interval t0) cs = Ok self ->
  (0 < flow_timeout self)%Q ->
  resolve_flow self p = (self1, k, s, dir) ->
  let d := Dict.set k (_update_flow_stats s p dir) (_flows self1) in
  let self2 := set_flows d self1 in
  ((now - _last_cleanup self <= cleanup_interval self)%Q ->
   process_packet fsqrt self p now now' = Ok (self2, None))
  /\ ((cleanup_interval self < now - _last_cleanup self)%Q ->
      exists feats,
        extracted fsqrt
          (Dict.values (filter (stale self2 (PacketInfo.timestamp p)) d)) feats
        /\ List.length feats
           = List.length (filter (stale self2 (PacketInfo.timestamp p)) d)
        /\ process_packet fsqrt self p now now'
           = Ok (mkExtractor (flow_timeout self) (cleanup_interval self)
                   (filter (fresh_entry self2 (PacketInfo.timestamp p)) d)
                   now' (_total_flows_created self1)
                   (_total_flows_completed self
                    + Z.of_nat (List.length feats)),
                 hd_error feats)).
Proof.
  intros Hrun Hpos Hres d self2.
  pose proof (reached_inv _ _ _ _ _ _ Hrun) as Hinv.
  destruct (process_packet_sweep fsqrt self p now now' self1 k s dir
              Hinv Hpos Hres) as [Hnot Hdue].
  split; [exact Hnot|]. intros Hlt.
  destruct (Hdue Hlt) as (feats & Hext & Hpp).
  exists feats. split; [exact Hext|]. split; [|exact Hpp].
  exact (extracted_length _ _ _ Hext).
Qed.

Lemma inline_sweep_returns_first_only_witness :
  exists self' r,
    process_packet Sample.fsqrt
      (Sample.state_after (Sample.ingest [Sample.A; Sample.E])) Sample.F 100 101
    = Ok (self', r)
    /\ r <> None
    /\ List.length (_flows self') = 1%nat
    /\ _total_flows_completed self' = 2
    /\ _last_cleanup self' = 101%Q.
Proof.
  set (self := Sample.state_after (Sample.ingest [Sample.A; Sample.E])).
  assert (Hrun : run Sample.fsqrt (__init__ 60 30 0)
                   (Sample.ingest [Sample.A; Sample.E]) = Ok self)
    by (vm_compute; reflexivity).
  assert (Hpos : (0 < flow_timeout self)%Q) by reflexivity.
  destruct (resolve_flow self Sample.F) as [[[self1 k] s] dir] eqn:Hres.
  destruct (inline_sweep_returns_first_only Sample.fsqrt 60 30 0 _ self
              Sample.F 100 101 self1 k s dir Hrun Hpos Hres) as [_ Hdue].
  assert (Hlt : (cleanup_interval self < 100 - _last_cleanup self)%Q)
    by reflexivity.
  destruct (Hdue Hlt) as (feats & _ & _ & Hpp).
  assert (Hval : match process_packet Sample.fsqrt self Sample.F 100 101 with
                 | Ok (self', r) =>
                     r <> None
                     /\ List.length (_flows self') = 1%nat
                     /\ _total_flows_completed self' = 2
                     /\ _last_cleanup self' = 101%Q
                 | Raise _ => False
                 end).
  { vm_compute. repeat split. discriminate. }
  rewrite Hpp in Hval. eexists. eexists. split; [exact Hpp | exact Hval].
Defined.

Lemma extracted_In (fsqrt : Q -> Q) (values : list FlowStats.t)
    (feats : list FlowFeatures.t) (f : FlowFeatures.t) :
  extracted fsqrt values feats -> In f feats ->
  exists s, In s values /\ _extract_features fsqrt s = Ok f.
Proof.
  intros Hext. induction Hext as [|s f' values feats Hsf Hext IH];
    intros Hin; [contradiction|].
  destruct Hin as [->|Hin].
  - exists s. split; [now left | exact Hsf].
  - destruct (IH Hin) as (s0 & Hs0 & Hf0). exists s0. split; [now right | exact Hf0].
Qed.

(** X6. In a reachable state with a positive timeout, a feature vector
    returned by [process_packet] comes from the periodic sweep and belongs
    to another conversation: its flow key is neither the packet's key nor
    the reverse of it, and its flow was silent for the timeout at least. *)
Theorem returned_features_of_other_flow (fsqrt : Q -> Q)
    (timeout interval t0 : Q) (cs : list call) (self : FeatureExtractor)
    (p : PacketInfo.t) (now now' : Q)
    (self' : FeatureExtractor) (f : FlowFeatures.t) :
  run fsqrt (__init__ timeout interval t0) cs = Ok self ->
  (0 < flow_timeout self)%Q ->
  process_packet fsqrt self p now now' = Ok (self', Some f) ->
  (cleanup_interval self < now - _last_cleanup self)%Q
  /\ FlowFeatures.flow_key f <> _create_flow_key p
  /\ FlowFeatures.flow_key f <> FlowKey.reverse (_create_flow_key p)
  /\ exists s,
       In (FlowFeatures.flow_key f, s) (_flows self)
       /\ _extract_features fsqrt s = Ok f
       /\ (flow_timeout self
           <= PacketInfo.timestamp p - FlowStats.last_timestamp s)%Q.
Proof.
  intros Hrun Hpos Hpp.
  pose proof (reached_inv _ _ _ _ _ _ Hrun) as Hinv.
  destruct (resolve_flow self p) as [[[self1 k] s] dir] eqn:Hres.
  destruct (resolve_flow_inv self p Hinv _ _ _ _ Hres) as (Hinv1 & Hget & _).
  pose proof (inv_update self1 k s p dir Hinv1 Hget) as Hinv2.
  destruct (process_packet_sweep fsqrt self p now now' self1 k s dir
              Hinv Hpos Hres) as [Hnot Hdue].
  destruct (Qlt_le_dec (cleanup_interval self) (now - _last_cleanup self))
    as [Hlt|Hle]; [|rewrite (Hnot Hle) in Hpp; discriminate].
  split; [exact Hlt|].
  destruct (Hdue Hlt) as (feats & Hext & Heq).
  rewrite Hpp in Heq. inversion Heq as [[Hs Hf]]. clear Heq.
  assert (Hin : In f feats).
  { destruct feats; [discriminate|]. inversion Hf. now left. }
  destruct (extracted_In _ _ _ _ Hext Hin) as (s0 & Hs0 & Hf0).
  unfold Dict.values in Hs0. apply in_map_iff in Hs0.
  destruct Hs0 as ([k0 s0'] & Hsnd & Hin0). cbn [snd] in Hsnd. subst s0'.
  apply filter_In in Hin0. destruct Hin0 as [Hin0 Hst].
  unfold stale in Hst. cbn [snd] in Hst.
  set (d := Dict.set k (_update_flow_stats s p dir) (_flows self1)) in *.
  destruct Hinv2 as (Hok2 & Hkey2 & Hsin2 & _).
  fold d in Hok2, Hkey2, Hsin2. cbn [_flows set_flows] in Hok2, Hkey2, Hsin2.
  assert (Hk0 : FlowStats.flow_key s0 = k0).
  { unfold keyed in Hkey2. rewrite Forall_forall in Hkey2.
    exact (Hkey2 _ Hin0). }
  destruct (_extract_features_key fsqrt s0 f Hf0) as (Hfk & _).
  rewrite Hfk, Hk0.
  assert (Hkin : In (k, _update_flow_stats s p dir) d).
  { apply get_Some_In. apply get_set_same. }
  assert (Hne : k0 <> k).
  { intros ->.
    assert (Heq : (k, s0) = (k, _update_flow_stats s p dir))
      by (eapply entry_unique; eauto).
    inversion Heq; subst s0.
    rewrite complete_after_update in Hst. cbn [flow_timeout set_flows] in Hst.
    destruct (resolve_flow_config _ _ _ _ _ _ Hres) as (Hft & _).
    rewrite Hft in Hst. apply Qle_bool_iff in Hst. lra. }
  assert (Hk0in : In k0 (Dict.keys d)).
  { unfold Dict.keys. change k0 with (fst (k0, s0)). now apply in_map. }
  assert (Hkkin : In k (Dict.keys d)).
  { unfold Dict.keys. change k with (fst (k, _update_flow_stats s p dir)).
    now apply in_map. }
  assert (Hold : In (k0, s0) (_flows self)).
  { pose proof (resolve_flow_cases self p) as Hc. cbv zeta in Hc.
    assert (Hin1 : In (k0, s0) (_flows self1)).
    { apply get_Some_In. rewrite <- (get_set_other k k0
        (_update_flow_stats s p dir) (_flows self1) Hne).
      apply In_get_Some; assumption. }
    destruct (Dict.get (_create_flow_key p) (_flows self)).
    - rewrite Hc in Hres. inversion Hres; subst. exact Hin1.
    - destruct (Dict.get (FlowKey.reverse (_create_flow_key p)) (_flows self));
        rewrite Hc in Hres; inversion Hres; subst; [exact Hin1|].
      cbn [_flows] in Hin1. apply in_app_iff in Hin1.
      destruct Hin1 as [Hin1|[Hin1|[]]]; [exact Hin1|].
      inversion Hin1. congruence. }
  assert (Hnr : k0 <> FlowKey.reverse k).
  { intros Hr. apply Hne. rewrite Hr. apply Hsin2; [exact Hkkin|].
    rewrite <- Hr. exact Hk0in. }
  assert (Hlast : (flow_timeout self
                   <= PacketInfo.timestamp p - FlowStats.last_timestamp s0)%Q).
  { apply is_flow_complete_iff in Hst.
    destruct (resolve_flow_config _ _ _ _ _ _ Hres) as (Hft & _).
    cbn [flow_timeout set_flows] in Hst. now rewrite <- Hft. }
  assert (Hkeys : k0 <> _create_flow_key p
                  /\ k0 <> FlowKey.reverse (_create_flow_key p)).
  { destruct (resolve_flow_key _ _ _ _ _ _ Hres) as [Hk|Hk]; subst k.
    - split; assumption.
    - rewrite reverse_involutive in Hnr. split; assumption. }
  destruct Hkeys as [Hk1 Hk2].
  split; [exact Hk1|]. split; [exact Hk2|].
  exists s0. split; [exact Hold|]. split; [exact Hf0 | exact Hlast].
Qed.

Lemma returned_features_of_other_flow_witness :
  exists self' f,
    process_packet Sample.fsqrt
      (Sample.state_after (Sample.ingest [Sample.A; Sample.E])) Sample.F 100 101
    = Ok (self', Some f)
    /\ FlowFeatures.flow_key f <> _create_flow_key Sample.F
    /\ FlowFeatures.flow_key f <> FlowKey.reverse (_create_flow_key Sample.F).
Proof.
  set (self := Sample.state_after (Sample.ingest [Sample.A; Sample.E])).
  assert (Hrun : run Sample.fsqrt (__init__ 60 30 0)
                   (Sample.ingest [Sample.A; Sample.E]) = Ok self)
    by (vm_compute; reflexivity).
  assert (Hpos : (0 < flow_timeout self)%Q) by reflexivity.
  destruct (process_packet Sample.fsqrt self Sample.F 100 101)
    as [[self' [f|]]|e] eqn:Hpp.
  - exists self', f. split; [reflexivity|].
    destruct (returned_features_of_other_flow Sample.fsqrt 60 30 0 _ self
                Sample.F 100 101 self' f Hrun Hpos Hpp) as (_ & H1 & H2 & _).
    split; assumption.
  - exfalso. vm_compute in Hpp. discriminate.
  - exfalso. vm_compute in Hpp. discriminate.
Defined.

(** ** A timeout that is not positive *)

Lemma process_packet_on_empty (fsqrt : Q -> Q) (self : FeatureExtractor)
    (p : PacketInfo.t) (now now' : Q) :
  inv self -> _flows self = [] -> (flow_timeout self <= 0)%Q ->
  exists self' f,
    process_packet fsqrt self p now now' = Ok (self', Some f)
    /\ _flows self' = []
    /\ flow_timeout self' = flow_timeout self
    /\ _extract_features fsqrt
         (_update_flow_stats
            (FlowStats.new (_create_flow_key p) (PacketInfo.timestamp p)
               (PacketInfo.timestamp p)) p true) = Ok f.
Proof.
  intros Hinv Hempty Hto.
  pose proof (resolve_flow_cases self p) as Hc. cbv zeta in Hc.
  rewrite Hempty in Hc. cbn [Dict.get app] in Hc.
  apply Qle_bool_iff in Hto.
  destruct (process_packet_cases fsqrt self p now now' Hinv _ _ _ _ Hc)
    as [(_ & f & Hf & Heq) | [(Ht & _) | (Ht & _)]]; try congruence.
  eexists. exists f. split; [exact Heq|].
  cbn [_flows set_flows set_total_flows_completed flow_timeout Dict.set].
  rewrite FlowKey_eqb_refl. unfold without. cbn [filter fst].
  rewrite FlowKey_eqb_refl. cbn [negb]. auto.
Qed.

Lemma run_empty_table (fsqrt : Q -> Q) (cs : list call) :
  forall self,
    inv self -> _flows self = [] -> (flow_timeout self <= 0)%Q ->
    exists self',
      run fsqrt self cs = Ok self' /\ inv self' /\ _flows self' = []
      /\ flow_timeout self' = flow_timeout self.
Proof.
  induction cs as [|c cs IH]; intros self Hinv Hempty Hto.
  - exists self. cbn. auto.
  - assert (Hstep : exists self1,
               step fsqrt self c = Ok self1 /\ _flows self1 = []
               /\ flow_timeout self1 = flow_timeout self).
    { destruct c as [p now now' | t | ]; cbn [step].
      - destruct (process_packet_on_empty fsqrt self p now now' Hinv Hempty Hto)
          as (self1 & f & Hpp & He & Hft & _).
        rewrite Hpp. cbn [bind]. eauto.
      - destruct (_cleanup_stale_flows_inv fsqrt self t Hinv)
          as (self1 & feats & Hcl & _ & Hfl & Hft).
        rewrite Hcl. cbn [bind]. exists self1. rewrite Hfl, Hempty. auto.
      - destruct (finalize_all_flows_spec fsqrt self) as (feats & Hfin & _).
        rewrite Hfin. cbn [bind]. eexists. split; [reflexivity|]. auto. }
    destruct Hstep as (self1 & Hs & He1 & Hft1).
    destruct (step_inv fsqrt self c Hinv) as (self1' & Hs' & Hinv1).
    rewrite Hs in Hs'. inversion Hs'; subst self1'.
    rewrite <- Hft1 in Hto.
    destruct (IH self1 Hinv1 He1 Hto) as (self' & Hrun & Hinv' & He' & Hft').
    exists self'. cbn [run]. rewrite Hs. cbn [bind].
    split; [exact Hrun|]. split; [exact Hinv'|]. split; [exact He'|]. congruence.
Qed.

(** X7. With a timeout that is not positive no flow is ever aggregated:
    after every sequence of calls the table is empty, and [process_packet]
    returns at once the features of a flow made of that packet alone, under
    the packet's own key. *)
Theorem nonpositive_timeout_one_packet_flows (fsqrt : Q -> Q)
    (timeout interval t0 : Q) (cs : list call)
    (p : PacketInfo.t) (now now' : Q) :
  (timeout <= 0)%Q ->
  exists self self' f,
    run fsqrt (__init__ timeout interval t0) cs = Ok self
    /\ _flows self = []
    /\ process_packet fsqrt self p now now' = Ok (self', Some f)
    /\ _flows self' = []
    /\ FlowFeatures.flow_key f = _create_flow_key p
    /\ FlowFeatures.total_fwd_packets f = 1
    /\ FlowFeatures.total_bwd_packets f = 0.
Proof.
  intros Hto.
  destruct (run_empty_table fsqrt cs (__init__ timeout interval t0)
              (inv_init timeout interval t0) eq_refl Hto)
    as (self & Hrun & Hinv & Hempty & Hft).
  assert (Hto' : (flow_timeout self <= 0)%Q) by (rewrite Hft; exact Hto).
  destruct (process_packet_on_empty fsqrt self p now now' Hinv Hempty Hto')
    as (self' & f & Hpp & He' & _ & Hf).
  exists self, self', f. split; [exact Hrun|]. split; [exact Hempty|].
  split; [exact Hpp|]. split; [exact He'|].
  destruct (_extract_features_key fsqrt _ f Hf) as (Hk & Hfw & Hbw).
  rewrite Hk, Hfw, Hbw, update_flow_key.
  destruct (update_forward
              (FlowStats.new (_create_flow_key p) (PacketInfo.timestamp p)
                 (PacketInfo.timestamp p)) p) as (U1 & _ & U3 & _).
  rewrite U1, U3. repeat split.
Qed.

Lemma nonpositive_timeout_one_packet_flows_witness :
  exists self self' f,
    run Sample.fsqrt Sample.fresh0 (Sample.ingest [Sample.A; Sample.B])
    = Ok self
    /\ _flows self = []
    /\ process_packet Sample.fsqrt self Sample.C 0 0 = Ok (self', Some f)
    /\ FlowFeatures.total_fwd_packets f = 1.
Proof.
  assert (Hto : (0 <= 0)%Q) by (unfold Qle; simpl; lia).
  destruct (nonpositive_timeout_one_packet_flows Sample.fsqrt 0 30 0
              (Sample.ingest [Sample.A; Sample.B]) Sample.C 0 0 Hto)
    as (self & self' & f & Hrun & He & Hpp & _ & _ & Hfw & _).
  exists self, self', f. repeat split; assumption.
Defined.

(** ** Drain and sweep *)

(** X8. A drain after any sequence of calls leaves [get_statistics] with no
    active flow and as many flows completed as were ever created, and
    returns one feature vector for each flow that was active. *)
Theorem drain_completes_every_flow (fsqrt : Q -> Q)
    (flow_timeout cleanup_interval t0 : Q) (cs : list call) :
  exists self self' feats created,
    run fsqrt (__init__ flow_timeout cleanup_interval t0) cs = Ok self
    /\ finalize_all_flows fsqrt self = Ok (self', feats)
    /\ Z.of_nat (List.length feats) = get_active_flow_count self
    /\ created = _total_flows_created self
    /\ get_statistics self'
       = [ ("active_flows"%string, 0);
           ("total_flows_created"%string, created);
           ("total_flows_completed"%string, created) ].
Proof.
  destruct (reachable_inv fsqrt flow_timeout cleanup_interval t0 cs)
    as (self & Hrun & Hinv).
  destruct (finalize_all_flows_spec fsqrt self) as (feats & Hfin & Hext).
  exists self. eexists. exists feats, (_total_flows_created self).
  split; [exact Hrun|]. split; [exact Hfin|].
  split; [unfold get_active_flow_count; now rewrite (extracted_length _ _ _ Hext)|].
  split; [reflexivity|].
  destruct Hinv as (_ & _ & _ & _ & Hcnt). unfold counted in Hcnt.
  unfold get_statistics. cbn [_flows _total_flows_created
    _total_flows_completed List.length Z.of_nat].
  rewrite Hcnt, (Z.add_comm (_total_flows_completed self)). reflexivity.
Qed.

(** X9. On every table the sweep is idempotent: a second sweep at the same
    time returns the empty list and changes nothing; and a sweep at a time
    when no accumulator is stale returns the empty list and leaves the
    extractor as it was. *)
Theorem sweep_idempotent (fsqrt : Q -> Q) (self : FeatureExtractor) (now : Q) :
  Dict.ok (_flows self) ->
  (exists self' feats,
     _cleanup_stale_flows fsqrt self now = Ok (self', feats)
     /\ _cleanup_stale_flows fsqrt self' now = Ok (self', []))
  /\ ((forall k s, In (k, s) (_flows self) ->
         ~ (flow_timeout self <= now - FlowStats.last_timestamp s)%Q) ->
      _cleanup_stale_flows fsqrt self now = Ok (self, [])).
Proof.
  intros Hok.
  assert (Hnone : forall st : FeatureExtractor,
             Dict.ok (_flows st) ->
             filter (stale st now) (_flows st) = [] ->
             _cleanup_stale_flows fsqrt st now = Ok (st, [])).
  { intros st Hokst Hnil.
    destruct (_cleanup_stale_flows_spec fsqrt st now Hokst)
      as (feats & Hext & _ & Hcl).
    rewrite Hnil in Hext. inversion Hext; subst. rewrite Hcl.
    assert (Hid : filter (fresh_entry st now) (_flows st) = _flows st).
    { pose proof (stale_fresh_length st now (_flows st)) as Hl.
      rewrite Hnil in Hl. cbn [List.length] in Hl.
      clear - Hl. induction (_flows st) as [|kv d IH]; [reflexivity|].
      cbn [filter List.length] in *.
      destruct (fresh_entry st now kv).
      - cbn [List.length] in Hl. f_equal. apply IH. lia.
      - pose proof (filter_length_le (fresh_entry st now) d). lia. }
    rewrite Hid. cbn [List.length Z.of_nat]. rewrite Z.add_0_r.
    destruct st; reflexivity. }
  split.
  - destruct (_cleanup_stale_flows_spec fsqrt self now Hok)
      as (feats & Hext & _ & Hcl).
    eexists. exists feats. split; [exact Hcl|].
    apply Hnone; cbn [_flows].
    + now apply ok_filter.
    + rewrite filter_twice.
      clear. induction (_flows self) as [|kv d IH]; [reflexivity|].
      cbn [filter]. unfold fresh_entry, stale, _is_flow_complete.
      cbn [flow_timeout].
      destruct (Qle_bool (flow_timeout self)
                  (now - FlowStats.last_timestamp (snd kv)));
        cbn [negb andb]; exact IH.
  - intros Hfresh. apply Hnone; [exact Hok|].
    clear Hnone Hok. revert Hfresh.
    generalize (_flows self) as d.
    induction d as [|[k s] d IH]; intros Hfresh; [reflexivity|].
    cbn [filter].
    destruct (stale self now (k, s)) eqn:E.
    + exfalso. apply (Hfresh k s); [now left|].
      unfold stale in E. cbn [snd] in E. now apply is_flow_complete_iff.
    + apply IH. intros k' s' Hin. apply (Hfresh k' s'). now right.
Qed.

Lemma sweep_idempotent_witness :
  Dict.ok (_flows Sample.two_flows)
  /\ _cleanup_stale_flows Sample.fsqrt Sample.two_flows 50
     = Ok (Sample.two_flows, []).
Proof.
  split; [exact two_flows_ok|].
  apply (proj2 (sweep_idempotent Sample.fsqrt Sample.two_flows 50 two_flows_ok)).
  assert (Hb : forallb (fresh_entry Sample.two_flows 50)
                 (_flows Sample.two_flows) = true) by (vm_compute; reflexivity).
  intros k s Hin Hle. rewrite forallb_forall in Hb. specialize (Hb _ Hin).
  unfold fresh_entry, stale in Hb. cbn [snd] in Hb.
  apply negb_true_iff in Hb. apply is_flow_complete_iff in Hle.
  rewrite Hle in Hb. discriminate Hb.
Defined.

(** ** Timestamps, flags and inter-arrival samples *)

Lemma update_times_flags (s : FlowStats.t) (p : PacketInfo.t) (dir : bool) :
  let s' := _update_flow_stats s p dir in
  FlowStats.first_timestamp s' = FlowStats.first_timestamp s
  /\ FlowStats.last_timestamp s' = PacketInfo.timestamp p
  /\ FlowStats.tcp_flags s'
     = FlowStats.tcp_flags s ++ flags_of [ProcessPacket p 0 0]
  /\ FlowStats.total_packets s' = FlowStats.total_packets s + 1.
Proof.
  unfold _update_flow_stats, FlowStats.total_packets. cbn [flags_of].
  destruct dir;
    match goal with
    | |- context [(1 <? ?n)%Z] => destruct (1 <? n)%Z
    end;
    destruct (PacketInfo.flags p) as [[|c f]|]; cbn;
    rewrite ?app_nil_r; repeat split; lia.
Qed.

Lemma flags_of_cons (p : PacketInfo.t) (now now' : Q) (cs : list call) :
  flags_of (ProcessPacket p now now' :: cs)
  = flags_of [ProcessPacket p 0 0] ++ flags_of cs.
Proof. cbn [flags_of]. destruct (PacketInfo.flags p) as [[|c f]|]; reflexivity. Qed.

Lemma conversation_run_times (fsqrt : Q -> Q) (k : FlowKey.t) (cs : list call) :
  forall self s,
    inv self -> (0 < flow_timeout self)%Q ->
    Dict.get k (_flows self) = Some s ->
    Forall (of_conversation k) cs ->
    exists self' s',
      run fsqrt self cs = Ok self'
      /\ Dict.get k (_flows self') = Some s'
      /\ FlowStats.first_timestamp s' = FlowStats.first_timestamp s
      /\ FlowStats.last_timestamp s'
         = last_timestamp_of (FlowStats.last_timestamp s) cs
      /\ FlowStats.tcp_flags s' = FlowStats.tcp_flags s ++ flags_of cs
      /\ FlowStats.total_packets s'
         = FlowStats.total_packets s + Z.of_nat (List.length cs).
Proof.
  induction cs as [|c cs IH]; intros self s Hinv Hpos Hget Hall.
  - exists self, s. cbn. rewrite app_nil_r, Z.add_0_r. repeat split; auto.
  - inversion Hall as [|? ? Hc Hall']; subst.
    destruct c as [p now now' | t | ]; simpl in Hc; try contradiction.
    destruct (resolve_present self k s p Hinv Hget) as [Hfwd Hbwd].
    assert (Hstep : exists dir, resolve_flow self p = (self, k, s, dir)).
    { destruct Hc as [E|E]; [exists true; auto|].
      destruct (FlowKey.eqb (FlowKey.reverse k) k) eqn:Er.
      - apply FlowKey_eqb_eq in Er. exists true. apply Hfwd. congruence.
      - apply FlowKey_eqb_neq in Er. exists false. auto. }
    destruct Hstep as (dir & Hres).
    destruct (process_packet_spec fsqrt self p now now' Hinv _ _ _ _ Hres)
      as (self1 & r & Hpp & Hinv1 & Hft1 & Hcase).
    destruct Hcase as [(Hle & _) | (_ & Hget1)].
    { apply Qle_bool_iff in Hle. lra. }
    rewrite <- Hft1 in Hpos.
    destruct (IH self1 _ Hinv1 Hpos Hget1 Hall')
      as (self' & s' & Hrun & Hget' & Hfirst & Hlast & Hflags & Htot).
    destruct (update_times_flags s p dir) as (U1 & U2 & U3 & U4).
    exists self', s'. cbn [run step]. rewrite Hpp. cbn [bind].
    split; [exact Hrun|]. split; [exact Hget'|].
    rewrite Hfirst, Hlast, Hflags, Htot, U1, U2, U3, U4.
    cbn [last_timestamp_of].
    rewrite (flags_of_cons p now now' cs), <- app_assoc, length_cons.
    repeat split. lia.
Qed.

(** X10. In a reachable state with a positive timeout, when a packet [p]
    opens a conversation and packets of that conversation follow in any
    order, the accumulator keeps [p]'s timestamp as first timestamp, has the
    timestamp of the packet ingested last as last timestamp (so its duration
    is the gap between those two, or zero when the last packet is the
    earlier), has logged the non-empty flag strings in arrival order, and
    has counted every packet. *)
Theorem conversation_span (fsqrt : Q -> Q)
    (timeout interval t0 : Q) (cs : list call) (self : FeatureExtractor)
    (p : PacketInfo.t) (now now' : Q) (ps : list call) :
  run fsqrt (__init__ timeout interval t0) cs = Ok self ->
  (0 < flow_timeout self)%Q ->
  Dict.get (_create_flow_key p) (_flows self) = None ->
  Dict.get (FlowKey.reverse (_create_flow_key p)) (_flows self) = None ->
  Forall (of_conversation (_create_flow_key p)) ps ->
  exists self' s',
    run fsqrt self (ProcessPacket p now now' :: ps) = Ok self'
    /\ Dict.get (_create_flow_key p) (_flows self') = Some s'
    /\ FlowStats.first_timestamp s' = PacketInfo.timestamp p
    /\ FlowStats.last_timestamp s'
       = last_timestamp_of (PacketInfo.timestamp p) ps
    /\ FlowStats.duration s'
       = py_max (last_timestamp_of (PacketInfo.timestamp p) ps
                 - PacketInfo.timestamp p) 0
    /\ FlowStats.tcp_flags s' = flags_of (ProcessPacket p now now' :: ps)
    /\ FlowStats.total_packets s' = 1 + Z.of_nat (List.length ps).
Proof.
  intros Hrun Hpos H1 H2 Hps.
  pose proof (reached_inv _ _ _ _ _ _ Hrun) as Hinv.
  pose proof (resolve_flow_cases self p) as Hc. cbv zeta in Hc.
  rewrite H1, H2 in Hc.
  destruct (process_packet_spec fsqrt self p now now' Hinv _ _ _ _ Hc)
    as (self1 & r & Hpp & Hinv1 & Hft1 & Hcase).
  destruct Hcase as [(Hle & _) | (_ & Hget1)].
  { apply Qle_bool_iff in Hle. lra. }
  rewrite <- Hft1 in Hpos.
  destruct (conversation_run_times fsqrt _ ps self1 _ Hinv1 Hpos Hget1 Hps)
    as (self' & s' & Hrun' & Hget' & Hfirst & Hlast & Hflags & Htot).
  destruct (update_times_flags
              (FlowStats.new (_create_flow_key p) (PacketInfo.timestamp p)
                 (PacketInfo.timestamp p)) p true) as (U1 & U2 & U3 & U4).
  exists self', s'. cbn [run step]. rewrite Hpp. cbn [bind].
  split; [exact Hrun'|]. split; [exact Hget'|].
  unfold FlowStats.duration.
  rewrite Hfirst, Hlast, Hflags, Htot, U1, U2, U3, U4.
  rewrite (flags_of_cons p now now' ps).
  cbn [FlowStats.new FlowStats.first_timestamp FlowStats.tcp_flags app
       FlowStats.total_packets FlowStats.fwd_packet_count
       FlowStats.bwd_packet_count].
  repeat split.
Qed.

Lemma conversation_span_witness :
  exists self' s',
    run Sample.fsqrt Sample.fresh
      (ProcessPacket Sample.C 0 0 :: Sample.ingest [Sample.B; Sample.A])
    = Ok self'
    /\ Dict.get Sample.k (_flows self') = Some s'
    /\ FlowStats.first_timestamp s' = 1%Q
    /\ FlowStats.last_timestamp s' = 0%Q
    /\ FlowStats.duration s' = 0%Q.
Proof.
  assert (Hrun0 : run Sample.fsqrt (__init__ 60 30 0) [] = Ok Sample.fresh)
    by reflexivity.
  assert (Hpos : (0 < flow_timeout Sample.fresh)%Q) by reflexivity.
  assert (Hps : Forall (of_conversation (_create_flow_key Sample.C))
                  (Sample.ingest [Sample.B; Sample.A])).
  { constructor; [right; reflexivity|].
    constructor; [left; reflexivity | constructor]. }
  destruct (conversation_span Sample.fsqrt 60 30 0 [] Sample.fresh Sample.C 0 0
              _ Hrun0 Hpos eq_refl eq_refl Hps)
    as (self' & s' & Hrun & Hget & Hfirst & Hlast & Hdur & _).
  exists self', s'. split; [exact Hrun|]. split; [exact Hget|].
  split; [exact Hfirst|]. split; [exact Hlast | exact Hdur].
Defined.

Lemma update_iat_of (s : FlowStats.t) (p : PacketInfo.t) (dir : bool) :
  lengths_of dir s <> [] ->
  iat_of dir (_update_flow_stats s p dir)
  = iat_of dir s
      ++ [next_iat (FlowStats.first_timestamp s) (iat_of dir s)
            (PacketInfo.timestamp p)].
Proof.
  intros Hne. unfold _update_flow_stats.
  destruct dir; cbn [lengths_of iat_of] in *;
    cbn [FlowStatsSet.last_timestamp FlowStatsSet.fwd_packet_count
      FlowStatsSet.bwd_packet_count FlowStatsSet.fwd_packet_lengths
      FlowStatsSet.bwd_packet_lengths FlowStats.fwd_packet_lengths
      FlowStats.bwd_packet_lengths FlowStats.fwd_iat FlowStats.bwd_iat
      FlowStats.first_timestamp];
    match goal with
    | |- context [(1 <? ?n)%Z] => destruct (1 <? n)%Z eqn:E
    end;
    try (apply Z.ltb_ge in E; rewrite length_app in E; cbn [List.length] in E;
         match type of Hne with
         | ?l <> [] => destruct l; [contradiction | cbn [List.length] in E; lia]
         end);
    destruct (PacketInfo.flags p) as [[|c f]|]; reflexivity.
Qed.

(** X12. In every reachable table the first backward packet of a flow adds
    no inter-arrival sample, and the sample added for the second backward
    packet is measured from the flow's first timestamp, not from the first
    backward packet. *)
Theorem first_backward_sample_from_flow_start (fsqrt : Q -> Q)
    (timeout interval t0 : Q) (cs : list call) (self : FeatureExtractor)
    (k : FlowKey.t) (s : FlowStats.t) (p : PacketInfo.t) :
  run fsqrt (__init__ timeout interval t0) cs = Ok self ->
  In (k, s) (_flows self) ->
  (FlowStats.bwd_packet_lengths s = [] ->
   FlowStats.bwd_iat (_update_flow_stats s p false) = [])
  /\ (forall len, FlowStats.bwd_packet_lengths s = [len] ->
      FlowStats.bwd_iat (_update_flow_stats s p false)
      = [py_max (PacketInfo.timestamp p - FlowStats.first_timestamp s) 0]).
Proof.
  intros Hrun Hin.
  destruct (iat_samples_shape fsqrt timeout interval t0 cs) as (self0 & Hrun0 & Hsh).
  rewrite Hrun in Hrun0. inversion Hrun0; subst self0.
  destruct (Hsh _ _ Hin) as (_ & (_ & Hbi) & _).
  split.
  - intros Hnil. rewrite Hnil in Hbi. cbn in Hbi.
    unfold _update_flow_stats. cbn. rewrite Hnil. cbn.
    destruct (PacketInfo.flags p) as [[|c f]|]; cbn;
      destruct (FlowStats.bwd_iat s); try discriminate; reflexivity.
  - intros len Hone. rewrite Hone in Hbi. cbn in Hbi.
    assert (Hnil : FlowStats.bwd_iat s = [])
      by (destruct (FlowStats.bwd_iat s); [reflexivity | discriminate]).
    assert (Hne : lengths_of false s <> [])
      by (cbn [lengths_of]; rewrite Hone; discriminate).
    pose proof (update_iat_of s p false Hne) as Hup.
    cbn [iat_of] in Hup. rewrite Hup, Hnil. reflexivity.
Qed.

Lemma first_backward_sample_from_flow_start_witness :
  FlowStats.bwd_iat
    (_update_flow_stats
       (_update_flow_stats
          (_update_flow_stats (FlowStats.new Sample.k 0 0) Sample.A true)
          Sample.B false)
       Sample.B false)
  = [py_max (PacketInfo.timestamp Sample.B - 0) 0].
Proof.
  set (s := _update_flow_stats
              (_update_flow_stats (FlowStats.new Sample.k 0 0) Sample.A true)
              Sample.B false).
  assert (Hrun : run Sample.fsqrt (__init__ 60 30 0)
                   (Sample.ingest [Sample.A; Sample.B])
                 = Ok (Sample.state_after (Sample.ingest [Sample.A; Sample.B])))
    by (vm_compute; reflexivity).
  assert (Hin : In (Sample.k, s)
                  (_flows (Sample.state_after
                             (Sample.ingest [Sample.A; Sample.B]))))
    by (vm_compute; left; reflexivity).
  destruct (first_backward_sample_from_flow_start Sample.fsqrt 60 30 0 _ _
              Sample.k s Sample.B Hrun Hin) as [_ Hsecond].
  exact (Hsecond 200 eq_refl).
Defined.

(** ** The feature vector *)



(** * The sniffer *)

(** ** TCP flag strings *)

Lemma TCPFlags_eqb_eq (x y : Scapy.TCPFlags) : TCPFlags_eqb x y = true -> x = y.
Proof.
  destruct x, y. unfold TCPFlags_eqb. cbn.
  rewrite !andb_true_iff. intros H.
  repeat match goal with
         | H : _ /\ _ |- _ => destruct H
         | H : Bool.eqb _ _ = true |- _ => apply Bool.eqb_prop in H
         end.
  subst. reflexivity.
Qed.

Lemma all_flags_complete (x : Scapy.TCPFlags) :
  existsb (TCPFlags_eqb x) all_flags = true.
Proof. destruct x as [[] [] [] [] [] [] [] []]; vm_compute; reflexivity. Qed.

Lemma flag_strings_distinct :
  forallb (fun x =>
    forallb (fun y =>
      implb (String.eqb (_get_tcp_flags x) (_get_tcp_flags y))
            (TCPFlags_eqb x y)) all_flags) all_flags = true.
Proof. vm_compute. reflexivity. Qed.

Lemma _get_tcp_flags_nonempty (x : Scapy.TCPFlags) :
  _get_tcp_flags x <> EmptyString.
Proof. destruct x as [[] [] [] [] [] [] [] []]; vm_compute; discriminate. Qed.

(** X14. The flag string of a TCP layer is never empty, is ["NONE"]
    exactly when no flag is set, and tells the flag sets apart: two layers
    with the same string have the same eight flags. *)
Theorem tcp_flag_string (x : Scapy.TCPFlags) :
  _get_tcp_flags x <> EmptyString
  /\ (_get_tcp_flags x = "NONE"%string
      <-> x = Scapy.mkFlags false false false false false false false false)
  /\ forall y, _get_tcp_flags x = _get_tcp_flags y -> x = y.
Proof.
  split; [|split].
  - apply _get_tcp_flags_nonempty.
  - split.
    + destruct x as [[] [] [] [] [] [] [] []]; vm_compute; intros H;
        try reflexivity; discriminate.
    + intros ->. reflexivity.
  - intros y Heq. apply TCPFlags_eqb_eq.
    pose proof flag_strings_distinct as Hall.
    rewrite forallb_forall in Hall.
    pose proof (all_flags_complete x) as Hx. apply existsb_exists in Hx.
    destruct Hx as (x' & Hx' & Ex). apply TCPFlags_eqb_eq in Ex. subst x'.
    pose proof (all_flags_complete y) as Hy. apply existsb_exists in Hy.
    destruct Hy as (y' & Hy' & Ey). apply TCPFlags_eqb_eq in Ey. subst y'.
    specialize (Hall x Hx'). rewrite forallb_forall in Hall.
    specialize (Hall y Hy'). rewrite Heq, String.eqb_refl in Hall.
    exact Hall.
Qed.

Lemma tcp_flag_string_witness :
  _get_tcp_flags (Scapy.mkFlags false true false false true false false false)
  = "SYN|ACK"%string
  /\ forall y,
       _get_tcp_flags y = "SYN|ACK"%string ->
       y = Scapy.mkFlags false true false false true false false false.
Proof.
  split; [reflexivity|]. intros y Hy. symmetry.
  apply (proj2 (proj2 (tcp_flag_string
    (Scapy.mkFlags false true false false true false false false)))).
  symmetry. exact Hy.
Defined.

(** ** Parsed packets *)

(** X15. A packet without IP layer is not parsed.  A parsed packet carries
    a flag string exactly when it has a TCP layer, the string is then not
    empty, and the extractor logs it: the accumulator updated with a parsed
    TCP packet gains that one string at the end of [tcp_flags], and the
    accumulator updated with any other parsed packet keeps [tcp_flags]. *)
Theorem parsed_flags_are_logged (packet : Scapy.Packet) (s : FlowStats.t)
    (dir : bool) :
  (Scapy.ip packet = None <-> _parse_packet packet = None)
  /\ forall info,
       _parse_packet packet = Some info ->
       match Scapy.tcp packet with
       | Some tcp_layer =>
           PacketInfo.protocol info = TCP
           /\ PacketInfo.flags info
              = Some (_get_tcp_flags (Scapy.tcp_flags tcp_layer))
           /\ FlowStats.tcp_flags (_update_flow_stats s info dir)
              = FlowStats.tcp_flags s
                  ++ [_get_tcp_flags (Scapy.tcp_flags tcp_layer)]
       | None =>
           PacketInfo.protocol info <> TCP
           /\ PacketInfo.flags info = None
           /\ FlowStats.tcp_flags (_update_flow_stats s info dir)
              = FlowStats.tcp_flags s
       end.
Proof.
  unfold _parse_packet. split.
  - destruct (Scapy.ip packet).
    + split; [discriminate|].
      destruct (Scapy.tcp packet); [discriminate|].
      destruct (Scapy.udp packet); [discriminate|].
      destruct (Scapy.icmp packet); discriminate.
    + split; reflexivity.
  - intros info. destruct (Scapy.ip packet) as [ip_layer|]; [|discriminate].
    destruct (Scapy.tcp packet) as [tcp_layer|].
    + intros H. inversion H. clear H. cbn [PacketInfo.protocol PacketInfo.flags].
      split; [reflexivity|]. split; [reflexivity|].
      pose proof (_get_tcp_flags_nonempty (Scapy.tcp_flags tcp_layer)) as Hne.
      destruct (update_times_flags s
                  (PacketInfo.mk (Scapy.time packet) (Scapy.src ip_layer)
                     (Scapy.dst ip_layer) (Scapy.tcp_sport tcp_layer)
                     (Scapy.tcp_dport tcp_layer) TCP (Scapy.len packet)
                     (Some (_get_tcp_flags (Scapy.tcp_flags tcp_layer)))
                     (payload_len (Scapy.tcp_payload tcp_layer))) dir)
        as (_ & _ & Hfl & _).
      rewrite Hfl. cbn [flags_of PacketInfo.flags].
      destruct (_get_tcp_flags (Scapy.tcp_flags tcp_layer));
        [contradiction | reflexivity].
    + destruct (Scapy.udp packet) as [udp_layer|];
        [|destruct (Scapy.icmp packet) as [icmp_layer|]];
        intros H; inversion H; clear H;
        cbn [PacketInfo.protocol PacketInfo.flags];
        (split; [discriminate|]); (split; [reflexivity|]);
        match goal with
        | |- context [_update_flow_stats s ?p dir] =>
            destruct (update_times_flags s p dir) as (_ & _ & Hfl & _);
            rewrite Hfl; cbn [flags_of PacketInfo.flags]; apply app_nil_r
        end.
Qed.

(** X16. Two parsed ICMP packets travelling in opposite directions between
    two different addresses belong to one conversation exactly when the
    type of each is the code of the other, because the ICMP type and code
    stand in for the source and destination ports. *)
Theorem icmp_conversation (a b : Scapy.Packet) (ia ib : PacketInfo.t)
    (ipa ipb : Scapy.IP) (la lb : Scapy.ICMP) :
  Scapy.ip a = Some ipa -> Scapy.ip b = Some ipb ->
  Scapy.tcp a = None -> Scapy.udp a = None -> Scapy.icmp a = Some la ->
  Scapy.tcp b = None -> Scapy.udp b = None -> Scapy.icmp b = Some lb ->
  Scapy.src ipb = Scapy.dst ipa -> Scapy.dst ipb = Scapy.src ipa ->
  Scapy.src ipa <> Scapy.dst ipa ->
  _parse_packet a = Some ia -> _parse_packet b = Some ib ->
  _create_flow_key ib <> _create_flow_key ia
  /\ (_create_flow_key ib = FlowKey.reverse (_create_flow_key ia)
      <-> Scapy.icmp_type lb = Scapy.icmp_code la
          /\ Scapy.icmp_code lb = Scapy.icmp_type la).
Proof.
  intros Hipa Hipb Hta Hua Hia Htb Hub Hib Hsrc Hdst Hne Hpa Hpb.
  unfold _parse_packet in Hpa, Hpb.
  rewrite Hipa, Hta, Hua, Hia in Hpa. rewrite Hipb, Htb, Hub, Hib in Hpb.
  inversion Hpa. inversion Hpb. clear Hpa Hpb.
  unfold _create_flow_key, FlowKey.reverse. cbn. rewrite Hsrc, Hdst. split.
  - intros H. inversion H. congruence.
  - split.
    + intros H. inversion H. auto.
    + intros [T1 T2]. rewrite T1, T2. reflexivity.
Qed.

Lemma icmp_conversation_witness :
  let request :=
    Scapy.mkPacket 0 98 (Some (Scapy.mkIP "10.0.0.1" "10.0.0.2")) None None
      (Some (Scapy.mkICMP 8 0 (Some 56))) in
  let reply :=
    Scapy.mkPacket 1 98 (Some (Scapy.mkIP "10.0.0.2" "10.0.0.1")) None None
      (Some (Scapy.mkICMP 0 0 (Some 56))) in
  exists ia ib,
    _parse_packet request = Some ia /\ _parse_packet reply = Some ib
    /\ _create_flow_key ib <> _create_flow_key ia
    /\ _create_flow_key ib <> FlowKey.reverse (_create_flow_key ia).
Proof.
  intros request reply.
  destruct (_parse_packet request) as [ia|] eqn:Ha; [|discriminate].
  destruct (_parse_packet reply) as [ib|] eqn:Hb; [|discriminate].
  exists ia, ib. split; [reflexivity|]. split; [reflexivity|].
  assert (Hne : ("10.0.0.1" <> "10.0.0.2")%string) by discriminate.
  destruct (icmp_conversation request reply ia ib _ _ _ _
              eq_refl eq_refl eq_refl eq_refl eq_refl eq_refl eq_refl eq_refl
              eq_refl eq_refl Hne Ha Hb) as [Hk Hrev].
  split; [exact Hk|]. intros H. apply Hrev in H. destruct H as [_ H].
  discriminate.
Defined.

(** ** Captured, queued and dropped packets *)

Section SentinelProperties.

Variable W : Type.

Lemma get_packet_queue (self : NetworkSentinel.t W) (block : bool) (timeout : option Q) :
  let '(self', g) := NetworkSentinel.get_packet W self block timeout in
  NetworkSentinel.packet_callback W self' = NetworkSentinel.packet_callback W self
  /\ NetworkSentinel.queue_size W self' = NetworkSentinel.queue_size W self
  /\ NetworkSentinel._packets_captured W self'
     = NetworkSentinel._packets_captured W self
  /\ NetworkSentinel._packets_dropped W self'
     = NetworkSentinel._packets_dropped W self
  /\ NetworkSentinel.packet_queue W self
     = match g with
       | NetworkSentinel.Got p => p :: NetworkSentinel.packet_queue W self'
       | _ => NetworkSentinel.packet_queue W self'
       end.
Proof.
  unfold NetworkSentinel.get_packet.
  destruct block; cbn [negb];
    [destruct timeout as [t|]; [destruct (Qle_bool 0 t); cbn [negb]|]|];
    destruct (NetworkSentinel.packet_queue W self) eqn:E; cbn;
    rewrite ?E; repeat split.
Qed.

Lemma queue_run (es : list (NetworkSentinel.event)) :
  forall (self : NetworkSentinel.t W) (w : W),
    NetworkSentinel.packet_callback W self = None ->
    let '(self', w', out) := NetworkSentinel.run W self w es in
    let qs := NetworkSentinel.queue_size W self in
    NetworkSentinel.packet_callback W self' = None
    /\ NetworkSentinel.queue_size W self' = qs
    /\ w' = w
    /\ NetworkSentinel._packets_captured W self'
       = NetworkSentinel._packets_captured W self
         + Z.of_nat (List.length (NetworkSentinel.parsed es))
    /\ Z.of_nat (List.length (NetworkSentinel.packet_queue W self'))
       + NetworkSentinel._packets_dropped W self'
       + Z.of_nat (List.length out)
       = Z.of_nat (List.length (NetworkSentinel.packet_queue W self))
         + NetworkSentinel._packets_dropped W self
         + Z.of_nat (List.length (NetworkSentinel.parsed es))
    /\ NetworkSentinel._packets_dropped W self
       <= NetworkSentinel._packets_dropped W self'
    /\ (0 < qs ->
        Z.of_nat (List.length (NetworkSentinel.packet_queue W self)) <= qs ->
        Z.of_nat (List.length (NetworkSentinel.packet_queue W self')) <= qs)
    /\ (qs <= 0 ->
        NetworkSentinel._packets_dropped W self'
        = NetworkSentinel._packets_dropped W self
        /\ out ++ NetworkSentinel.packet_queue W self'
           = NetworkSentinel.packet_queue W self ++ NetworkSentinel.parsed es).
Proof.
  induction es as [|e es IH]; intros self w Hcb.
  - cbn. rewrite app_nil_r. repeat split; intros; auto; lia.
  - destruct e as [packet | block timeout].
    + cbn [NetworkSentinel.run NetworkSentinel.parsed].
      unfold NetworkSentinel._packet_handler.
      destruct (_parse_packet packet) as [info|]; [|apply (IH self w Hcb)].
      cbn [NetworkSentinel.packet_callback NetworkSentinel.queue_size
           NetworkSentinel.packet_queue NetworkSentinel._packets_captured
           NetworkSentinel._packets_dropped].
      rewrite Hcb. unfold NetworkSentinel.put_nowait.
      destruct ((0 <? NetworkSentinel.queue_size W self)
                && (NetworkSentinel.queue_size W self
                    <=? Z.of_nat (List.length
                                    (NetworkSentinel.packet_queue W self))))
        eqn:Efull;
        match goal with
        | |- context [NetworkSentinel.run W ?st w es] =>
            specialize (IH st w eq_refl);
            destruct (NetworkSentinel.run W st w es) as [[self' w'] out]
        end;
        cbn [NetworkSentinel.packet_callback NetworkSentinel.queue_size
             NetworkSentinel.packet_queue NetworkSentinel._packets_captured
             NetworkSentinel._packets_dropped] in IH;
        destruct IH as (I1 & I2 & I3 & I4 & I5 & I6 & I7 & I8);
        cbn [List.length]; rewrite ?length_app in *; cbn [List.length] in *.
      * apply andb_true_iff in Efull. destruct Efull as [E1 E2].
        apply Z.ltb_lt in E1. apply Z.leb_le in E2.
        split; [exact I1|]. split; [exact I2|]. split; [exact I3|].
        split; [lia|]. split; [lia|]. split; [lia|]. split; [exact I7|].
        intros Hinf. exfalso. lia.
      * split; [exact I1|]. split; [exact I2|]. split; [exact I3|].
        split; [lia|]. split; [lia|]. split; [exact I6|]. split.
        -- intros Hpos Hle. apply I7; [exact Hpos|].
           apply andb_false_iff in Efull. destruct Efull as [E|E].
           ++ apply Z.ltb_ge in E. lia.
           ++ apply Z.leb_gt in E. lia.
        -- intros Hinf. destruct (I8 Hinf) as [I8a I8b].
           split; [exact I8a|]. rewrite I8b, <- app_assoc. reflexivity.
    + cbn [NetworkSentinel.run NetworkSentinel.parsed].
      pose proof (get_packet_queue self block timeout) as Hg.
      destruct (NetworkSentinel.get_packet W self block timeout) as [self1 g].
      destruct Hg as (G1 & G2 & G3 & G4 & G5).
      assert (Hcb1 : NetworkSentinel.packet_callback W self1 = None)
        by (rewrite G1; exact Hcb).
      specialize (IH self1 w Hcb1).
      destruct (NetworkSentinel.run W self1 w es) as [[self' w'] out].
      cbv zeta in IH. destruct IH as (I1 & I2 & I3 & I4 & I5 & I6 & I7 & I8).
      rewrite G2, G3, G4 in *. rewrite G5.
      split; [exact I1|]. split; [exact I2|]. split; [exact I3|].
      split; [exact I4|].
      destruct g as [pk| |]; cbn [List.length app] in *.
      * split; [lia|]. split; [exact I6|]. split.
        -- intros Hpos Hle. apply I7; [exact Hpos | lia].
        -- intros Hinf. destruct (I8 Hinf) as [I8a I8b].
           split; [exact I8a|]. now rewrite I8b.
      * split; [lia|]. split; [exact I6|]. split; [exact I7 | exact I8].
      * split; [lia|]. split; [exact I6|]. split; [exact I7 | exact I8].
Qed.

End SentinelProperties.

(** X17. A sentinel without callback, from its creation on: every parsed
    packet is counted captured, and each of them is still queued, was
    dropped, or was returned by [get_packet]; a queue of positive size
    never holds more than [queue_size] packets; a queue of size zero or
    less drops nothing and hands the packets out in capture order. *)
Theorem captured_queued_dropped (W : Type) (queue_size : Z) (w : W)
    (es : list NetworkSentinel.event) :
  let '(self, w', out) :=
    NetworkSentinel.run W (NetworkSentinel.__init__ W None queue_size) w es in
  w' = w
  /\ NetworkSentinel._packets_captured W self
     = Z.of_nat (List.length (NetworkSentinel.parsed es))
  /\ NetworkSentinel._packets_captured W self
     = Z.of_nat (List.length (NetworkSentinel.packet_queue W self))
       + NetworkSentinel._packets_dropped W self
       + Z.of_nat (List.length out)
  /\ 0 <= NetworkSentinel._packets_dropped W self
  /\ (0 < queue_size ->
      Z.of_nat (List.length (NetworkSentinel.packet_queue W self))
      <= queue_size)
  /\ (queue_size <= 0 ->
      NetworkSentinel._packets_dropped W self = 0
      /\ out ++ NetworkSentinel.packet_queue W self
         = NetworkSentinel.parsed es).
Proof.
  pose proof (queue_run W es (NetworkSentinel.__init__ W None queue_size) w
                eq_refl) as H.
  destruct (NetworkSentinel.run W (NetworkSentinel.__init__ W None queue_size)
              w es) as [[self w'] out].
  cbn [NetworkSentinel.__init__ NetworkSentinel.packet_callback
       NetworkSentinel.queue_size NetworkSentinel.packet_queue
       NetworkSentinel._packets_captured NetworkSentinel._packets_dropped
       List.length app] in H.
  destruct H as (_ & _ & H3 & H4 & H5 & H6 & H7 & H8).
  split; [exact H3|]. split; [lia|]. split; [lia|]. split; [lia|].
  split; [intros Hpos; apply H7; lia|]. exact H8.
Qed.

Lemma callback_run (W : Type) (callback : PacketInfo.t -> W -> W)
    (es : list NetworkSentinel.event) :
  forall (self : NetworkSentinel.t W) (w : W),
    NetworkSentinel.packet_callback W self = Some callback ->
    NetworkSentinel.packet_queue W self = [] ->
    let '(self', w', out) := NetworkSentinel.run W self w es in
    NetworkSentinel.packet_callback W self' = Some callback
    /\ NetworkSentinel.packet_queue W self' = []
    /\ out = []
    /\ NetworkSentinel._packets_dropped W self'
       = NetworkSentinel._packets_dropped W self
    /\ NetworkSentinel._packets_captured W self'
       = NetworkSentinel._packets_captured W self
         + Z.of_nat (List.length (NetworkSentinel.parsed es))
    /\ w' = fold_left (fun w p => callback p w) (NetworkSentinel.parsed es) w.
Proof.
  induction es as [|e es IH]; intros self w Hcb Hq.
  - cbn. rewrite Z.add_0_r. repeat split; auto.
  - destruct e as [packet | block timeout].
    + cbn [NetworkSentinel.run NetworkSentinel.parsed].
      unfold NetworkSentinel._packet_handler.
      destruct (_parse_packet packet) as [info|]; [|apply (IH self w Hcb Hq)].
      cbn [NetworkSentinel.packet_callback]. rewrite Hcb.
      match goal with
      | |- context [NetworkSentinel.run W ?st ?w1 es] =>
          specialize (IH st w1 eq_refl Hq);
          destruct (NetworkSentinel.run W st w1 es) as [[self' w'] out]
      end.
      cbn [NetworkSentinel._packets_captured NetworkSentinel._packets_dropped]
        in IH.
      destruct IH as (I1 & I2 & I3 & I4 & I5 & I6).
      cbn [List.length fold_left].
      split; [exact I1|]. split; [exact I2|]. split; [exact I3|].
      split; [exact I4|]. split; [lia | exact I6].
    + cbn [NetworkSentinel.run NetworkSentinel.parsed].
      pose proof (get_packet_queue W self block timeout) as Hg.
      destruct (NetworkSentinel.get_packet W self block timeout) as [self1 g].
      destruct Hg as (G1 & G2 & G3 & G4 & G5).
      rewrite Hq in G5.
      assert (Hq1 : NetworkSentinel.packet_queue W self1 = [])
        by (destruct g; [discriminate | now symmetry | now symmetry]).
      assert (Hcb1 : NetworkSentinel.packet_callback W self1 = Some callback)
        by (rewrite G1; exact Hcb).
      specialize (IH self1 w Hcb1 Hq1).
      destruct (NetworkSentinel.run W self1 w es) as [[self' w'] out].
      destruct IH as (I1 & I2 & I3 & I4 & I5 & I6).
      rewrite G3 in I5. rewrite G4 in I4.
      destruct g; [discriminate| |];
        (split; [exact I1|]; split; [exact I2|]; split; [exact I3|];
         split; [exact I4|]; split; [exact I5 | exact I6]).
Qed.

(** X18. A sentinel with a callback, from its creation on: the callback is
    applied once to every parsed packet, in capture order; the queue stays
    empty, nothing is dropped and [get_packet] never returns a packet. *)
Theorem callback_sees_every_packet (W : Type)
    (callback : PacketInfo.t -> W -> W) (queue_size : Z) (w : W)
    (es : list NetworkSentinel.event) :
  let '(self, w', out) :=
    NetworkSentinel.run W
      (NetworkSentinel.__init__ W (Some callback) queue_size) w es in
  w' = fold_left (fun w p => callback p w) (NetworkSentinel.parsed es) w
  /\ NetworkSentinel.get_statistics W self
     = [ ("packets_captured"%string,
          Z.of_nat (List.length (NetworkSentinel.parsed es)));
         ("packets_dropped"%string, 0);
         ("queue_size"%string, 0) ]
  /\ out = [].
Proof.
  pose proof (callback_run W callback es
                (NetworkSentinel.__init__ W (Some callback) queue_size) w
                eq_refl eq_refl) as H.
  destruct (NetworkSentinel.run W
              (NetworkSentinel.__init__ W (Some callback) queue_size) w es)
    as [[self w'] out].
  cbn [NetworkSentinel.__init__ NetworkSentinel._packets_captured
       NetworkSentinel._packets_dropped] in H.
  destruct H as (_ & H2 & H3 & H4 & H5 & H6).
  split; [exact H6|]. split; [|exact H3].
  unfold NetworkSentinel.get_statistics. rewrite H2, H4, H5. reflexivity.
Qed.

(** * Scores and threat levels *)

Lemma Qlt_bool_iff (a b : Q) : Qlt_bool a b = true <-> (a < b)%Q.
Proof.
  unfold Qlt_bool. rewrite negb_true_iff. split.
  - intros H. apply Qnot_le_lt. intros Hle. apply Qle_bool_iff in Hle.
    congruence.
  - intros H. destruct (Qle_bool b a) eqn:E; [|reflexivity].
    apply Qle_bool_iff in E. lra.
Qed.

Lemma Qlt_bool_false (a b : Q) : Qlt_bool a b = false <-> (b <= a)%Q.
Proof.
  unfold Qlt_bool. rewrite negb_false_iff. apply Qle_bool_iff.
Qed.

Lemma Qle_bool_false (a b : Q) : Qle_bool a b = false <-> (b < a)%Q.
Proof.
  split.
  - intros H. apply Qnot_le_lt. intros Hle. apply Qle_bool_iff in Hle.
    congruence.
  - intros H. destruct (Qle_bool a b) eqn:E; [|reflexivity].
    apply Qle_bool_iff in E. lra.
Qed.

Lemma np_clip_spec (a : Q) :
  ((a < 0)%Q -> np_clip a 0 1 = 0%Q)
  /\ ((0 <= a)%Q -> (a <= 1)%Q -> np_clip a 0 1 = a)
  /\ ((1 < a)%Q -> np_clip a 0 1 = 1%Q).
Proof.
  unfold np_clip. split; [|split].
  - intros H. apply Qlt_bool_iff in H. rewrite H. reflexivity.
  - intros H0 H1. apply Qlt_bool_false in H0. rewrite H0.
    apply Qlt_bool_false in H1. now rewrite H1.
  - intros H.
    assert (H0 : Qlt_bool a 0 = false) by (apply Qlt_bool_false; lra).
    rewrite H0. apply Qlt_bool_iff in H. now rewrite H.
Qed.

Lemma normalized_value (raw : Q) : (((1 # 2) - raw) / 1 == (1 # 2) - raw)%Q.
Proof. field. Qed.

Lemma _normalize_score_cases (r : Q) :
  let n := (((1 # 2) - r) / 1)%Q in
  ((n < 0)%Q /\ _normalize_score r = 0%Q)
  \/ ((0 <= n)%Q /\ (n <= 1)%Q /\ _normalize_score r = n)
  \/ ((1 < n)%Q /\ _normalize_score r = 1%Q).
Proof.
  intros n. unfold _normalize_score. fold n.
  destruct (np_clip_spec n) as (C1 & C2 & C3).
  destruct (Qlt_le_dec n 0) as [H|H]; [left; auto|].
  destruct (Qlt_le_dec 1 n) as [H'|H']; [right; right; auto|].
  right; left; auto.
Qed.

(** X19. The normalised anomaly score always lies between 0 and 1, is
    [0.5 - raw] for a raw score between -0.5 and 0.5, and never grows when
    the raw score grows. *)
Theorem normalized_score_range (raw raw' : Q) :
  (0 <= _normalize_score raw)%Q /\ (_normalize_score raw <= 1)%Q
  /\ ((- (1 # 2) <= raw)%Q -> (raw <= 1 # 2)%Q ->
      (_normalize_score raw == (1 # 2) - raw)%Q)
  /\ ((raw <= raw')%Q -> (_normalize_score raw' <= _normalize_score raw)%Q).
Proof.
  pose proof (normalized_value raw) as Hn.
  pose proof (normalized_value raw') as Hn'.
  destruct (_normalize_score_cases raw) as [(H1 & E)|[(H1 & H2 & E)|(H1 & E)]];
    destruct (_normalize_score_cases raw')
      as [(H1' & E')|[(H1' & H2' & E')|(H1' & E')]];
    rewrite E, ?E'; repeat split; intros; try lra.
Qed.

Lemma normalized_score_range_witness :
  (_normalize_score (- (3 # 10)) == 8 # 10)%Q
  /\ (_normalize_score 2 <= _normalize_score (- (3 # 10)))%Q.
Proof.
  destruct (normalized_score_range (- (3 # 10)) 2) as (_ & _ & Hmid & Hmono).
  split.
  - rewrite Hmid; [reflexivity | unfold Qle; simpl; lia | unfold Qle; simpl; lia].
  - apply Hmono. unfold Qle; simpl; lia.
Defined.

Lemma classify_cases (score : Q) :
  ((8 # 10 <= score)%Q /\ _classify_threat score = "HIGH"%string)
  \/ ((6 # 10 <= score)%Q /\ (score < 8 # 10)%Q
      /\ _classify_threat score = "MEDIUM"%string)
  \/ ((score < 6 # 10)%Q /\ _classify_threat score = "LOW"%string).
Proof.
  unfold _classify_threat.
  destruct (Qle_bool (8 # 10) score) eqn:E1.
  - left. split; [now apply Qle_bool_iff | reflexivity].
  - apply Qle_bool_false in E1.
    destruct (Qle_bool (6 # 10) score) eqn:E2.
    + right; left. split; [now apply Qle_bool_iff|]. split; [exact E1 | reflexivity].
    + right; right. split; [now apply Qle_bool_false | reflexivity].
Qed.

Lemma _normalize_score_antitone (raw raw' : Q) :
  (raw <= raw')%Q -> (_normalize_score raw' <= _normalize_score raw)%Q.
Proof.
  intros Hle.
  pose proof (normalized_value raw) as Hn.
  pose proof (normalized_value raw') as Hn'.
  destruct (_normalize_score_cases raw) as [(H1 & E)|[(H1 & H2 & E)|(H1 & E)]];
    destruct (_normalize_score_cases raw')
      as [(H1' & E')|[(H1' & H2' & E')|(H1' & E')]];
    rewrite E, E'; lra.
Qed.

Lemma classify_monotone (score score' : Q) :
  (score <= score')%Q ->
  threat_rank (_classify_threat score) <= threat_rank (_classify_threat score').
Proof.
  intros Hle.
  destruct (classify_cases score) as [(H & E)|[(H & H' & E)|(H & E)]];
    destruct (classify_cases score') as [(G & E')|[(G & G' & E')|(G & E')]];
    rewrite E, E'; cbn; try lia; lra.
Qed.

(** X20. The threat level of the detector and the one of the integration
    are the same function of the score; a higher score never gets a lower
    level; the level of the score normalised from a raw isolation-forest
    score never rises when the raw score rises; it is LOW for every raw
    score that is not negative, and HIGH for every raw score of -0.5 or
    less. *)
Theorem threat_levels (score score' raw raw' : Q) :
  _determine_threat_level score = _classify_threat score
  /\ ((score <= score')%Q ->
      threat_rank (_classify_threat score)
      <= threat_rank (_classify_threat score'))
  /\ ((raw <= raw')%Q ->
      threat_rank (_classify_threat (_normalize_score raw'))
      <= threat_rank (_classify_threat (_normalize_score raw)))
  /\ ((0 <= raw)%Q -> _classify_threat (_normalize_score raw) = "LOW"%string)
  /\ ((raw <= - (1 # 2))%Q ->
      _classify_threat (_normalize_score raw) = "HIGH"%string).
Proof.
  split; [reflexivity|].
  split; [apply classify_monotone|].
  split; [intros Hle; apply classify_monotone;
          now apply _normalize_score_antitone|].
  pose proof (normalized_value raw) as Hn.
  split.
  - intros Hpos.
    assert (Hhalf : (_normalize_score raw <= 1 # 2)%Q).
    { destruct (_normalize_score_cases raw)
        as [(H1 & E)|[(H1 & H2 & E)|(H1 & E)]]; rewrite E; lra. }
    destruct (classify_cases (_normalize_score raw))
      as [(H & E)|[(H & H' & E)|(H & E)]]; [lra | lra | exact E].
  - intros Hneg.
    assert (Hone : (1 <= _normalize_score raw)%Q).
    { destruct (_normalize_score_cases raw)
        as [(H1 & E)|[(H1 & H2 & E)|(H1 & E)]]; rewrite E; lra. }
    destruct (classify_cases (_normalize_score raw))
      as [(H & E)|[(H & H' & E)|(H & E)]]; [exact E | lra | lra].
Qed.

Lemma threat_levels_witness :
  _classify_threat (_normalize_score 0) = "LOW"%string
  /\ _classify_threat (_normalize_score (- (1 # 2))) = "HIGH"%string
  /\ threat_rank (_classify_threat (_normalize_score 0))
     <= threat_rank (_classify_threat (_normalize_score (- (1 # 2)))).
Proof.
  split; [|split].
  - apply (proj1 (proj2 (proj2 (proj2 (threat_levels 0 0 0 0))))).
    unfold Qle; simpl; lia.
  - apply (proj2 (proj2 (proj2 (proj2 (threat_levels 0 0 (- (1 # 2)) 0))))).
    unfold Qle; simpl; lia.
  - apply (proj1 (proj2 (proj2 (threat_levels 0 0 (- (1 # 2)) 0)))).
    unfold Qle; simpl; lia.
Defined.

(** X21. The simulated detector, for a noise term between 0 and 0.15:
    the score lies between 0 and 1; a flow is flagged exactly when its
    score is above 0.6, and a flagged flow never gets the threat level LOW;
    the level HIGH needs more than 100 packets; and a flow with none of the
    four unusual characteristics is never flagged. *)
Theorem simulated_detection (features : FlowFeatures.t) (noise : Q) :
  (0 <= noise)%Q -> (noise <= 15 # 100)%Q ->
  let '(is_anomaly, score) := _simulate_anomaly_detection features noise in
  (0 <= score)%Q /\ (score <= 1)%Q
  /\ (is_anomaly = true <-> (6 # 10 < score)%Q)
  /\ (is_anomaly = true -> _determine_threat_level score <> "LOW"%string)
  /\ (_determine_threat_level score = "HIGH"%string ->
      100 < FlowFeatures.total_packets features)
  /\ (FlowFeatures.total_packets features <= 100 ->
      (1 <= FlowFeatures.flow_duration features)%Q ->
      (FlowFeatures.flow_duration features <= 300)%Q ->
      (50 <= FlowFeatures.packet_length_mean features)%Q ->
      (FlowFeatures.packet_length_mean features <= 1400)%Q ->
      (FlowFeatures.packet_length_std features <= 500)%Q ->
      is_anomaly = false /\ (score == noise)%Q).
Proof.
  intros Hn0 Hn1. unfold _simulate_anomaly_detection.
  set (c1 := (100 <? FlowFeatures.total_packets features)%Z).
  set (c2 := Qlt_bool (FlowFeatures.flow_duration features) 1
             || Qlt_bool 300 (FlowFeatures.flow_duration features)).
  set (c3 := Qlt_bool 1400 (FlowFeatures.packet_length_mean features)
             || Qlt_bool (FlowFeatures.packet_length_mean features) 50).
  set (c4 := Qlt_bool 500 (FlowFeatures.packet_length_std features)).
  set (score := (_ + noise)%Q).
  assert (Hc1 : c1 = true <-> 100 < FlowFeatures.total_packets features)
    by apply Z.ltb_lt.
  assert (Hrange : (0 <= score)%Q /\ (score <= 1)%Q
                   /\ (c1 = false -> (score <= 7 # 10)%Q)).
  { unfold score. destruct c1, c2, c3, c4; repeat split; intros;
      try discriminate; lra. }
  destruct Hrange as (R0 & R1 & R2).
  split; [exact R0|]. split; [exact R1|]. split; [apply Qlt_bool_iff|].
  split; [|split].
  - intros Ha. apply Qlt_bool_iff in Ha.
    destruct (classify_cases score) as [(H & E)|[(H & H' & E)|(H & E)]];
      unfold _determine_threat_level; unfold _classify_threat in E;
      rewrite E; try discriminate. lra.
  - intros Hhigh. apply Hc1. destruct c1; [reflexivity|].
    specialize (R2 eq_refl).
    destruct (classify_cases score) as [(H & E)|[(H & H' & E)|(H & E)]];
      unfold _determine_threat_level in Hhigh; unfold _classify_threat in E;
      rewrite E in Hhigh; try discriminate. lra.
  - intros P1 P2 P3 P4 P5 P6.
    assert (E1 : c1 = false) by (apply Z.ltb_ge; lia).
    assert (E2 : c2 = false).
    { unfold c2. apply orb_false_iff. split; apply Qlt_bool_false; assumption. }
    assert (E3 : c3 = false).
    { unfold c3. apply orb_false_iff. split; apply Qlt_bool_false; assumption. }
    assert (E4 : c4 = false) by (apply Qlt_bool_false; assumption).
    assert (Hs : (score == noise)%Q).
    { unfold score. rewrite E1, E2, E3, E4. lra. }
    split; [|exact Hs]. apply Qlt_bool_false. lra.
Qed.

Lemma simulated_detection_witness :
  let f :=
    FlowFeatures.mk Sample.k 10 150 50 200 1450 10 1450 10 1450 600
      (1 # 10) 0 (1 # 10) 0 (1 # 10) 0 0 TCP in
  fst (_simulate_anomaly_detection f (1 # 10)) = true
  /\ _determine_threat_level (snd (_simulate_anomaly_detection f (1 # 10)))
     <> "LOW"%string.
Proof.
  intros f.
  assert (H0 : (0 <= 1 # 10)%Q) by (unfold Qle; simpl; lia).
  assert (H1 : (1 # 10 <= 15 # 100)%Q) by (unfold Qle; simpl; lia).
  pose proof (simulated_detection f (1 # 10) H0 H1) as H.
  destruct (_simulate_anomaly_detection f (1 # 10)) as [a sc] eqn:E.
  destruct H as (_ & _ & Hflag & Hlow & _).
  assert (Ha : a = true).
  { apply (f_equal fst) in E. cbn [fst] in E. rewrite <- E.
    vm_compute. reflexivity. }
  split; [exact Ha | exact (Hlow Ha)].
Defined.

(** * Sweeps at two times *)

Lemma stale_later (self : FeatureExtractor) (now now' : Q)
    (kv : FlowKey.t * FlowStats.t) :
  (now <= now')%Q -> stale self now kv = true -> stale self now' kv = true.
Proof.
  unfold stale. intros Hle H. apply is_flow_complete_iff in H.
  apply is_flow_complete_iff. lra.
Qed.

(** X22. On every table a sweep followed by a sweep at a later time leaves
    the extractor in the state that the later sweep alone leaves, and the
    two sweeps together return as many feature vectors as the later sweep
    alone returns. *)
Theorem sweep_later_subsumes (fsqrt : Q -> Q) (self : FeatureExtractor)
    (now now' : Q) :
  Dict.ok (_flows self) -> (now <= now')%Q ->
  exists self1 feats1 self2 feats2 feats,
    _cleanup_stale_flows fsqrt self now = Ok (self1, feats1)
    /\ _cleanup_stale_flows fsqrt self1 now' = Ok (self2, feats2)
    /\ _cleanup_stale_flows fsqrt self now' = Ok (self2, feats)
    /\ List.length feats = (List.length feats1 + List.length feats2)%nat.
Proof.
  intros Hok Hle.
  destruct (_cleanup_stale_flows_spec fsqrt self now Hok)
    as (feats1 & Hext1 & _ & Hcl1).
  set (self1 := mkExtractor (flow_timeout self) (cleanup_interval self)
                  (filter (fresh_entry self now) (_flows self))
                  (_last_cleanup self) (_total_flows_created self)
                  (_total_flows_completed self
                   + Z.of_nat (List.length feats1))) in *.
  assert (Hok1 : Dict.ok (_flows self1)) by (apply ok_filter; exact Hok).
  destruct (_cleanup_stale_flows_spec fsqrt self1 now' Hok1)
    as (feats2 & Hext2 & _ & Hcl2).
  destruct (_cleanup_stale_flows_spec fsqrt self now' Hok)
    as (feats & Hext & _ & Hcl).
  assert (Hflows : filter (fresh_entry self1 now') (_flows self1)
                   = filter (fresh_entry self now') (_flows self)).
  { cbn [_flows self1]. rewrite filter_twice. apply filter_ext. intros kv.
    change (fresh_entry self1 now' kv) with (fresh_entry self now' kv).
    unfold fresh_entry.
    destruct (stale self now kv) eqn:E; [|reflexivity].
    now rewrite (stale_later self now now' kv Hle E). }
  assert (Hlen : List.length feats
                 = (List.length feats1 + List.length feats2)%nat).
  { pose proof (stale_fresh_length self now (_flows self)) as L1.
    pose proof (stale_fresh_length self1 now' (_flows self1)) as L2.
    pose proof (stale_fresh_length self now' (_flows self)) as L.
    rewrite <- (extracted_length _ _ _ Hext1) in L1.
    rewrite <- (extracted_length _ _ _ Hext2) in L2.
    rewrite <- (extracted_length _ _ _ Hext) in L.
    rewrite Hflows in L2. cbn [_flows self1] in L2. lia. }
  eexists. exists feats1. eexists. exists feats2, feats.
  split; [exact Hcl1|]. split; [exact Hcl2|]. split; [|exact Hlen].
  rewrite Hcl. rewrite Hflows.
  cbn [flow_timeout cleanup_interval _last_cleanup _total_flows_created
       _total_flows_completed self1].
  rewrite Hlen, Nat2Z.inj_add, Z.add_assoc. reflexivity.
Qed.

Lemma sweep_later_subsumes_witness :
  Dict.ok (_flows Sample.two_flows)
  /\ exists self2 feats,
       _cleanup_stale_flows Sample.fsqrt Sample.two_flows 200 = Ok (self2, feats)
       /\ List.length feats = 2%nat.
Proof.
  split; [exact two_flows_ok|].
  assert (Hle : (100 <= 200)%Q) by (unfold Qle; simpl; lia).
  destruct (sweep_later_subsumes Sample.fsqrt Sample.two_flows 100 200
              two_flows_ok Hle)
    as (self1 & feats1 & self2 & feats2 & feats & H1 & H2 & H & Hlen).
  exists self2, feats. split; [exact H|].
  assert (Hval : match _cleanup_stale_flows Sample.fsqrt Sample.two_flows 200 with
                 | Ok (_, fs) => List.length fs = 2%nat
                 | Raise _ => False
                 end) by (vm_compute; reflexivity).
  rewrite H in Hval. exact Hval.
Defined.
